(** * gorapid: a shallow embedding of the RAPID client (rapid.go)

    The development follows the Go source top-down: the constants and error
    values, the [Token] value object, the [RapidClient] with its credential
    exchange, and the generic request dispatch.  Everything the client does to
    the outside world (reading the clock, sending an HTTP request) is threaded
    through an explicit [World], so that the order and number of network calls
    can be stated and proved. *)

From Stdlib Require Import ZArith String Ascii List Bool Lia.
From stdpp Require Import base gmap strings list.

Local Open Scope Z_scope.

(** ** Machine integers and time

    Go's [int] is taken at its 64-bit width (amd64, arm64); [time.Duration] is
    an [int64] count of nanoseconds.  Arithmetic on both wraps around. *)

Definition wrap64 (z : Z) : Z := (z + 2 ^ 63) mod 2 ^ 64 - 2 ^ 63.

Definition in_int64 (z : Z) : Prop := - 2 ^ 63 <= z < 2 ^ 63.

(** [time.Duration]: nanoseconds, [int64]. *)
Definition Duration := Z.

Definition time_Second : Duration := 1000000000.

(** The conversion [time.Duration(n)] of an [int]. *)
Definition time_Duration (n : Z) : Duration := wrap64 n.

(** [d1 * d2] on [time.Duration]. *)
Definition Duration_mul (d1 d2 : Duration) : Duration := wrap64 (d1 * d2).

(** [defaultTimeout = 600 * time.Second] *)
Definition defaultTimeout : Duration := Duration_mul 600 time_Second.

(** [time.Time]: an instant, as nanoseconds on the time line.  The library's
    [Add], [Sub] and [Before] are exact on instants: the range of [time.Time]
    exceeds by far what a clock reading plus an [int64] duration can reach. *)
Definition Time := Z.

Definition Time_Add (t : Time) (d : Duration) : Time := t + d.
Definition Time_Before (t u : Time) : bool := t <? u.
Definition Time_Sub (t u : Time) : Duration := t - u.

(** ** Constants *)

Definition contentTypeJSON : string := "application/json".
Definition contentTypeURLEncoded : string := "application/x-www-form-urlencoded".
Definition authorizationHeader : string := "Authorization".
Definition xAuthorizationHeader : string := "X-Authorization".
Definition acceptHeader : string := "Accept".
Definition tokenEndpoint : string := "/token".
Definition clientCredentialsGrant : string := "client_credentials".
Definition jwtBearerGrant : string := "urn:ietf:params:oauth:grant-type:jwt-bearer".

(** ** Errors

    The three package-level sentinels, the errors handed back by the standard
    library, and the three shapes of [fmt.Errorf] the package uses. *)

Inductive error : Type :=
| ErrInvalidConfig
| ErrTokenGeneration
| ErrUnexpectedStatus
| LibError (msg : string)                      (* an error of net/http, net/url, encoding/json *)
| Errorf_w_v (w : error) (v : error)           (* fmt.Errorf("%w: %v", w, v) *)
| Errorf_w_d (w : error) (d : Z)               (* fmt.Errorf("%w: %d", w, d) *)
| Errorf_s_w (s : string) (w : error).         (* fmt.Errorf(s + ": %w", w) *)

Fixpoint error_eqb (a b : error) : bool :=
  match a, b with
  | ErrInvalidConfig, ErrInvalidConfig => true
  | ErrTokenGeneration, ErrTokenGeneration => true
  | ErrUnexpectedStatus, ErrUnexpectedStatus => true
  | LibError m, LibError m' => String.eqb m m'
  | Errorf_w_v w v, Errorf_w_v w' v' => error_eqb w w' && error_eqb v v'
  | Errorf_w_d w d, Errorf_w_d w' d' => error_eqb w w' && (d =? d')
  | Errorf_s_w s w, Errorf_s_w s' w' => String.eqb s s' && error_eqb w w'
  | _, _ => false
  end.

(** [errors.Is err target]: walks the [%w] chain. *)
Fixpoint errors_Is (err target : error) : bool :=
  error_eqb err target ||
  match err with
  | Errorf_w_v w _ => errors_Is w target
  | Errorf_w_d w _ => errors_Is w target
  | Errorf_s_w _ w => errors_Is w target
  | _ => false
  end.

(** ** The world: clock and transport

    [tick] counts the effects performed so far; the clock and the server are
    functions of it, so that time may pass, and the server may answer
    differently, between any two effects.  [trace] records what went out. *)

Definition Header := gmap string (list string).

Definition Header_Set (h : Header) (key value : string) : Header :=
  <[ key := [value] ]> h.

(** [url.Values] *)
Definition Values := gmap string (list string).

Record HTTPRequest : Type := mkHTTPRequest {
  Method : string;
  URL : string;
  Header_of : Header;
  ReqBody : option string      (* nil, or the bytes of the payload *)
}.

Record HTTPResponse : Type := mkHTTPResponse {
  StatusCode : Z;
  RespHeader : Header;
  RespBody : string            (* the body stream, by its content *)
}.

(** Who sent a request: the credential exchange (with its [isRefresh] flag) or
    the dispatch of [Request]. *)
Inductive Event : Type :=
| TokenExchange (isRefresh : bool) (req : HTTPRequest)
| Dispatch (req : HTTPRequest).

Record World : Type := mkWorld {
  tick : nat;
  trace : list Event
}.

(** ** Token *)

Record Token : Type := mkToken {
  Value : string;
  ExpiresIn : Z;
  TokenType : string;
  Token_RefreshToken : string;
  ExpireTime : Time
}.

(** [GetAuthorizationHeader]: [fmt.Sprintf("%s %s", t.TokenType, t.Value)] *)
Definition GetAuthorizationHeader (t : Token) : string :=
  TokenType t +:+ " " +:+ Value t.

(** ** Strings as byte sequences

    The path functions of the standard library work byte by byte; they are
    written over [list ascii] and lifted to [string]. *)

Definition bytes (s : string) : list ascii := list_ascii_of_string s.
Definition str (l : list ascii) : string := string_of_list_ascii l.

(** [strings.TrimRight s cutset]: drops the trailing bytes that occur in
    [cutset]. *)
Definition in_cutset (cutset : list ascii) (c : ascii) : bool :=
  existsb (Ascii.eqb c) cutset.

Fixpoint trim_left (cutset : list ascii) (l : list ascii) : list ascii :=
  match l with
  | [] => []
  | c :: l' => if in_cutset cutset c then trim_left cutset l' else l
  end.

Definition strings_TrimRight (s cutset : string) : string :=
  str (rev (trim_left (bytes cutset) (rev (bytes s)))).

(** [strings.Join elems sep] *)
Fixpoint strings_Join (elems : list string) (sep : string) : string :=
  match elems with
  | [] => ""
  | [e] => e
  | e :: rest => e +:+ sep +:+ strings_Join rest sep
  end.

(** ** path/filepath (Unix)

    [Clean] keeps a write buffer [out] (the first [w] bytes of Go's [lazybuf],
    so [w = length out]) and the index [dotdot] below which [..] may not
    remove anything.  The flag [copying] is true inside the inner loop of the
    default case, which copies one path element. *)

Definition IsPathSeparator (c : ascii) : bool := Ascii.eqb c "/".

Definition at_elem_end (rest : list ascii) : bool :=
  match rest with
  | [] => true
  | c :: _ => IsPathSeparator c
  end.

(** [out.w--; for out.w > dotdot && !IsPathSeparator(out.index(out.w)) { out.w-- }],
    entered at [w = length out - 1]. *)
Fixpoint backtrack (out : list ascii) (dotdot : nat) (w : nat) : nat :=
  match w with
  | O => O
  | S w' =>
      if (dotdot <? w)%nat && negb (IsPathSeparator (nth w out "000"%char))
      then backtrack out dotdot w'
      else w
  end.

Fixpoint Clean_loop (rooted : bool) (path : list ascii) (copying : bool)
    (out : list ascii) (dotdot : nat) : list ascii :=
  match path with
  | [] => out
  | c :: rest =>
      if IsPathSeparator c then
        (* empty path element *)
        Clean_loop rooted rest false out dotdot
      else if copying then
        (* copy element *)
        Clean_loop rooted rest true (out ++ [c]) dotdot
      else if Ascii.eqb c "." && at_elem_end rest then
        (* . element *)
        Clean_loop rooted rest false out dotdot
      else
        let need_sep :=
          (rooted && negb (length out =? 1)%nat) || (negb rooted && negb (length out =? 0)%nat) in
        let out_elem := (if need_sep then out ++ ["/"%char] else out) ++ [c] in
        match rest with
        | c2 :: rest2 =>
            if Ascii.eqb c "." && Ascii.eqb c2 "." && at_elem_end rest2 then
              (* .. element: remove to last separator *)
              if (dotdot <? length out)%nat then
                Clean_loop rooted rest2 false
                  (firstn (backtrack out dotdot (length out - 1)) out) dotdot
              else if negb rooted then
                let out' :=
                  (if (0 <? length out)%nat then out ++ ["/"%char] else out) ++ ["."%char; "."%char] in
                Clean_loop rooted rest2 false out' (length out')
              else
                Clean_loop rooted rest2 false out dotdot
            else
              (* real path element *)
              Clean_loop rooted rest true out_elem dotdot
        | [] => Clean_loop rooted rest true out_elem dotdot
        end
  end.

Definition Clean_bytes (path : list ascii) : list ascii :=
  match path with
  | [] => ["."%char]
  | c :: rest =>
      let out :=
        if IsPathSeparator c
        then Clean_loop true rest false ["/"%char] 1
        else Clean_loop false path false [] 0 in
      (* Turn empty string into "." *)
      match out with
      | [] => ["."%char]
      | _ => out
      end
  end.

Definition filepath_Clean (path : string) : string := str (Clean_bytes (bytes path)).

(** [filepath.Join]: empty elements before the first non-empty one are
    ignored; the rest is joined with the separator and cleaned. *)
Fixpoint filepath_Join (elem : list string) : string :=
  match elem with
  | [] => ""
  | e :: rest =>
      if String.eqb e "" then filepath_Join rest
      else filepath_Clean (strings_Join elem "/")
  end.

(** ** net/url

    The [url.URL] structure with the fields its [String] method renders, and
    the part of the package that method runs. *)

(** [url.Userinfo] *)
Record Userinfo : Type := mkUserinfo {
  username : string;
  password : string;
  passwordSet : bool
}.

Record URL_t : Type := mkURL {
  Scheme : string;
  URL_Opaque : string;          (* the field Opaque: encoded opaque data *)
  User : option Userinfo;       (* the *Userinfo field; None is nil *)
  Host : string;
  Path : string;
  RawPath : string;             (* encoded path hint *)
  OmitHost : bool;
  ForceQuery : bool;
  RawQuery : string;
  Fragment : string;
  RawFragment : string          (* encoded fragment hint *)
}.

(** The encoding modes that [String] uses. *)
Inductive encoding : Type :=
| encodePath
| encodeUserPassword
| encodeHost
| encodeFragment.

Definition in_range (lo hi c : ascii) : bool :=
  (nat_of_ascii lo <=? nat_of_ascii c)%nat && (nat_of_ascii c <=? nat_of_ascii hi)%nat.

Definition shouldEscape (c : ascii) (mode : encoding) : bool :=
  if in_range "a" "z" c || in_range "A" "Z" c || in_range "0" "9" c then false
  else if match mode with encodeHost => in_cutset (bytes "!$&'()*+,;=:[]<>") c || Ascii.eqb c (ascii_of_nat 34)
          | _ => false end then false
  else if in_cutset (bytes "-_.~") c then false
  else if in_cutset (bytes "$&+,/:;=?@") c then
    match mode with
    | encodePath => Ascii.eqb c "?"
    | encodeUserPassword =>
        Ascii.eqb c "@" || Ascii.eqb c "/" || Ascii.eqb c "?" || Ascii.eqb c ":"
    | encodeHost => true
    | encodeFragment => false
    end
  else if match mode with encodeFragment => in_cutset (bytes "!()*") c | _ => false end then false
  else true.

Definition upperhex (n : nat) : ascii := nth n (bytes "0123456789ABCDEF") "0"%char.

Definition escape_byte (mode : encoding) (c : ascii) : list ascii :=
  if shouldEscape c mode
  then ["%"%char; upperhex (nat_of_ascii c / 16); upperhex (nat_of_ascii c mod 16)]
  else [c].

Definition escape (s : string) (mode : encoding) : string :=
  str (flat_map (escape_byte mode) (bytes s)).

Definition ishex (c : ascii) : bool :=
  in_range "0" "9" c || in_range "a" "f" c || in_range "A" "F" c.

Definition unhex (c : ascii) : nat :=
  if in_range "0" "9" c then nat_of_ascii c - nat_of_ascii "0"
  else if in_range "a" "f" c then nat_of_ascii c - nat_of_ascii "a" + 10
  else if in_range "A" "F" c then nat_of_ascii c - nat_of_ascii "A" + 10
  else 0%nat.

(** [unescape]: [None] is the error return.  A [%] must be followed by two
    hex digits; in a host only non-ASCII bytes and [%25] may be encoded, and
    no byte may occur that a host would have escaped. *)
Fixpoint unescape_bytes (mode : encoding) (l : list ascii) : option (list ascii) :=
  match l with
  | [] => Some []
  | c :: rest =>
      if Ascii.eqb c "%" then
        match rest with
        | h1 :: h2 :: rest' =>
            if negb (ishex h1 && ishex h2) then None
            else if match mode with
                    | encodeHost =>
                        (unhex h1 <? 8)%nat && negb (Ascii.eqb h1 "2" && Ascii.eqb h2 "5")
                    | _ => false
                    end then None
            else option_map (cons (ascii_of_nat (unhex h1 * 16 + unhex h2)))
                   (unescape_bytes mode rest')
        | _ => None
        end
      else if match mode with
              | encodeHost => (nat_of_ascii c <? 128)%nat && shouldEscape c encodeHost
              | _ => false
              end then None
      else option_map (cons c) (unescape_bytes mode rest)
  end.

Definition unescape (s : string) (mode : encoding) : option string :=
  option_map str (unescape_bytes mode (bytes s)).

(** [validEncoded]: no byte of [s] would have been escaped. *)
Definition validEncoded (s : string) (mode : encoding) : bool :=
  forallb (fun c =>
             in_cutset (bytes "!$&'()*+,;=:@") c || in_cutset (bytes "[]") c ||
             Ascii.eqb c "%" || negb (shouldEscape c mode))
          (bytes s).

Definition nonempty (s : string) : bool := negb (String.eqb s "").

(** [EscapedPath]: the hint [RawPath] when it is a valid encoding of [Path]. *)
Definition EscapedPath (u : URL_t) : string :=
  if nonempty (RawPath u) && validEncoded (RawPath u) encodePath &&
     match unescape (RawPath u) encodePath with
     | Some p => String.eqb p (Path u)
     | None => false
     end
  then RawPath u
  else if String.eqb (Path u) "*" then "*" else escape (Path u) encodePath.

(** [EscapedFragment] *)
Definition EscapedFragment (u : URL_t) : string :=
  if nonempty (RawFragment u) && validEncoded (RawFragment u) encodeFragment &&
     match unescape (RawFragment u) encodeFragment with
     | Some f => String.eqb f (Fragment u)
     | None => false
     end
  then RawFragment u
  else escape (Fragment u) encodeFragment.

(** The [String] method of a [Userinfo]. *)
Definition Userinfo_String (ui : Userinfo) : string :=
  escape (username ui) encodeUserPassword +:+
  (if passwordSet ui then ":" +:+ escape (password ui) encodeUserPassword else "").

(** The first path segment, up to the first separator. *)
Fixpoint first_segment (l : list ascii) : list ascii :=
  match l with
  | [] => []
  | c :: l' => if IsPathSeparator c then [] else c :: first_segment l'
  end.

Definition starts_with_sep (s : string) : bool :=
  match s with
  | String c _ => IsPathSeparator c
  | EmptyString => false
  end.

Definition has_User (u : URL_t) : bool :=
  match User u with
  | Some _ => true
  | None => false
  end.

(** The [String] method of a URL, in the order the library writes the parts. *)
Definition URL_String (u : URL_t) : string :=
  let scheme := if nonempty (Scheme u) then Scheme u +:+ ":" else "" in
  let rest :=
    if nonempty (URL_Opaque u) then URL_Opaque u
    else
      let authority :=
        if nonempty (Scheme u) || nonempty (Host u) || has_User u then
          if OmitHost u && String.eqb (Host u) "" && negb (has_User u) then ""
          else
            (if nonempty (Host u) || nonempty (Path u) || has_User u then "//" else "") +:+
            (match User u with
             | Some ui => Userinfo_String ui +:+ "@"
             | None => ""
             end) +:+
            (if nonempty (Host u) then escape (Host u) encodeHost else "")
        else "" in
      let path := EscapedPath u in
      let slash :=
        if nonempty path && negb (starts_with_sep path) && nonempty (Host u) then "/" else "" in
      let dot :=
        if String.eqb (scheme +:+ authority +:+ slash) "" &&
           in_cutset (first_segment (bytes path)) ":"%char
        then "./" else "" in
      authority +:+ slash +:+ dot +:+ path in
  let query := if ForceQuery u || nonempty (RawQuery u) then "?" +:+ RawQuery u else "" in
  let fragment := if nonempty (Fragment u) then "#" +:+ EscapedFragment u else "" in
  scheme +:+ rest +:+ query +:+ fragment.

(** A URL of the form [scheme://host/path], as [url.Parse] returns it when
    the path has its default encoding. *)
Definition plainURL (scheme host path : string) : URL_t :=
  mkURL scheme "" None host path "" false false "" "" "".

(** ** The platform

    What the Go runtime, the standard library and the remote server contribute:
    the process environment, the clock, the validation done by
    [http.NewRequest], the URL parser, the codecs and the server's answers. *)

Record Platform : Type := mkPlatform {
  os_Getenv : string -> string;
  clock : nat -> Time;                                   (* time.Now() at a tick *)
  transport : nat -> HTTPRequest -> HTTPResponse + error; (* HTTPClient.Do at a tick *)
  newRequest_err : string -> string -> option error;     (* method and URL checks of http.NewRequest *)
  url_Parse : string -> URL_t + error;
  Values_Encode : Values -> string;
  base64_EncodeToString : string -> string;
  json_Decode_Token : string -> Token + error            (* Decode into a fresh Token *)
}.

(** A request body is an interface value: [RapidJson] is [Some] when its
    dynamic type implements [JSONBody] and holds what the method returns;
    [json_Marshal] is what [json.Marshal] returns for it. *)
Record BodyValue : Type := mkBodyValue {
  RapidJson : option (string + error);
  json_Marshal : string + error
}.

Record Response : Type := mkResponse {
  Body : string;
  Status : Z;
  Headers : Header;
  Error : option error;
  ResponseTime : Duration;
  RequestURL : string
}.

Record HTTPClient_t : Type := mkHTTPClient { Timeout : Duration }.

Record RapidClient : Type := mkRapidClient {
  BaseURL : string;
  Key : string;
  Secret : string;
  UserWebToken : string;
  HTTPClient : option HTTPClient_t;  (* the *http.Client field; None is nil *)
  Client_Token : option Token;      (* the *Token field; None is nil *)
  XAuthorization : string
}.

Definition set_Token (c : RapidClient) (t : Token) : RapidClient :=
  mkRapidClient (BaseURL c) (Key c) (Secret c) (UserWebToken c) (HTTPClient c)
    (Some t) (XAuthorization c).

(** A call either returns or panics (a nil dereference). *)
Inductive outcome (A : Type) : Type :=
| Return (a : A)
| Panic.
Arguments Return {A} a.
Arguments Panic {A}.

(** ** Effects: a state monad over the world *)

Definition M (A : Type) : Type := World -> A * World.

Definition ret {A : Type} (a : A) : M A := fun w => (a, w).

Definition bind {A B : Type} (m : M A) (k : A -> M B) : M B :=
  fun w => let (a, w') := m w in k a w'.

Notation "'let*' x ':=' m 'in' k" := (bind m (fun x => k))
  (at level 10, x pattern, m at level 100, k at level 200).

(** The events a computation adds to the trace. *)
Definition events_of {A : Type} (m : M A) (w : World) : list Event :=
  skipn (length (trace w)) (trace (snd (m w))).

(** The method [http.NewRequest] gives a request: [GET] for the empty one. *)
Definition method_or_GET (method : string) : string :=
  if String.eqb method "" then "GET" else method.

Section Client.

Variable P : Platform.

Definition time_Now : M Time :=
  fun w => (clock P (tick w), mkWorld (S (tick w)) (trace w)).

Definition time_Since (start : Time) : M Duration :=
  let* now := time_Now in
  ret (Z.max (- 2 ^ 63) (Z.min (2 ^ 63 - 1) (Time_Sub now start))).

(** The [err] of a [(value, err)] result pair. *)
Definition err_of {A : Type} (r : A + error) : option error :=
  match r with
  | inr err => Some err
  | inl _ => None
  end.

(** [c.HTTPClient.Do(req)], tagged with the caller.  [Do] on a nil client
    panics before anything is sent. *)
Definition HTTPClient_Do (hc : option HTTPClient_t) (tag : HTTPRequest -> Event)
    (req : HTTPRequest) : M (outcome (HTTPResponse + error)) :=
  match hc with
  | None => ret Panic
  | Some _ =>
      fun w => (Return (transport P (tick w) req),
                mkWorld (S (tick w)) (trace w ++ [tag req]))
  end.

(** [http.NewRequest]: an empty method stands for GET; the method and the
    URL are then checked. *)
Definition http_NewRequest (method url : string) (body : option string)
  : HTTPRequest + error :=
  let method := method_or_GET method in
  match newRequest_err P method url with
  | Some err => inr err
  | None => inl (mkHTTPRequest method url ∅ body)
  end.

Definition req_Header_Set (req : HTTPRequest) (key value : string) : HTTPRequest :=
  mkHTTPRequest (Method req) (URL req) (Header_Set (Header_of req) key value) (ReqBody req).

(** *** Token *)

Definition NewToken (value : string) (expiresIn : Z) (tokenType refreshToken : string)
  : M Token :=
  let* now := time_Now in
  ret (mkToken value expiresIn tokenType refreshToken
         (Time_Add now (Duration_mul (time_Duration expiresIn) time_Second))).

Definition IsValid (t : Token) : M bool :=
  let* now := time_Now in
  ret (Time_Before now (ExpireTime t)).

(** *** Construction *)

Definition NewRapidClient : M (option RapidClient * option error) :=
  let baseURL := os_Getenv P "RAPID_BASE_URL" in
  let key := os_Getenv P "RAPID_KEY" in
  let secret := os_Getenv P "RAPID_SECRET" in
  let userWebToken := os_Getenv P "RAPID_USER_WEB_TOKEN" in
  if String.eqb baseURL "" || String.eqb key "" || String.eqb secret "" then
    ret (None, Some ErrInvalidConfig)
  else
    ret (Some (mkRapidClient (strings_TrimRight baseURL "/") key secret userWebToken
                 (Some (mkHTTPClient defaultTimeout)) None ""),
         None).

(** *** Credential exchange *)

Definition generateParameters (c : RapidClient) (isRefresh : bool) : Values :=
  let fresh : Values :=
    if nonempty (UserWebToken c) then
      {[ "grant_type" := [jwtBearerGrant]; "assertion" := [UserWebToken c] ]}
    else
      {[ "grant_type" := [clientCredentialsGrant];
         "scope" := ["am_application_scope,default"] ]} in
  match Client_Token c with
  | Some t =>
      if isRefresh && nonempty (Token_RefreshToken t) then
        {[ "grant_type" := ["refresh_token"];
           "refresh_token" := [Token_RefreshToken t] ]}
      else fresh
  | None => fresh
  end.

Definition generateOrRefreshToken (c : RapidClient) (isRefresh : bool)
  : M (RapidClient * outcome (option error)) :=
  let params := generateParameters c isRefresh in
  let tokenURL := BaseURL c +:+ tokenEndpoint in
  match http_NewRequest "POST" tokenURL (Some (Values_Encode P params)) with
  | inr err => ret (c, Return (Some (Errorf_w_v ErrTokenGeneration err)))
  | inl req =>
      let req := req_Header_Set req "Content-Type" contentTypeURLEncoded in
      let req := req_Header_Set req authorizationHeader
                   ("Basic " +:+ base64_EncodeToString P (Key c +:+ ":" +:+ Secret c)) in
      let* r := HTTPClient_Do (HTTPClient c) (TokenExchange isRefresh) req in
      match r with
      | Panic => ret (c, Panic)
      | Return (inr err) => ret (c, Return (Some (Errorf_w_v ErrTokenGeneration err)))
      | Return (inl resp) =>
          if negb (StatusCode resp =? 200) then
            ret (c, Return (Some (Errorf_w_d ErrUnexpectedStatus (StatusCode resp))))
          else
            match json_Decode_Token P (RespBody resp) with
            | inr err => ret (c, Return (Some (Errorf_w_v ErrTokenGeneration err)))
            | inl token =>
                let* now := time_Now in
                let token :=
                  mkToken (Value token) (ExpiresIn token) (TokenType token)
                    (Token_RefreshToken token)
                    (Time_Add now (Duration_mul (time_Duration (ExpiresIn token)) time_Second)) in
                ret (set_Token c token, Return None)
            end
      end
  end.

Definition GenerateToken (c : RapidClient) : M (RapidClient * outcome (option error)) :=
  generateOrRefreshToken c false.

Definition RefreshToken (c : RapidClient) : M (RapidClient * outcome (option error)) :=
  generateOrRefreshToken c true.

Definition ensureValidToken (c : RapidClient) : M (RapidClient * outcome (option error)) :=
  match Client_Token c with
  | Some t =>
      let* valid := IsValid t in
      if valid then ret (c, Return None) else GenerateToken c
  | None => GenerateToken c
  end.

(** *** Dispatch *)

Definition set_Path (u : URL_t) (p : string) : URL_t :=
  mkURL (Scheme u) (URL_Opaque u) (User u) (Host u) p (RawPath u) (OmitHost u)
    (ForceQuery u) (RawQuery u) (Fragment u) (RawFragment u).

Definition set_RawQuery (u : URL_t) (q : string) : URL_t :=
  mkURL (Scheme u) (URL_Opaque u) (User u) (Host u) (Path u) (RawPath u) (OmitHost u)
    (ForceQuery u) q (Fragment u) (RawFragment u).

(** Lines 213-216: the target URL from the parsed base. *)
Definition resolve (u : URL_t) (urlPath : string) (params : Values) : URL_t :=
  let u := set_Path u (filepath_Join [Path u; urlPath]) in
  if (0 <? size params)%nat then set_RawQuery u (Values_Encode P params) else u.

(** Lines 218-230: the payload, [None] when [body] is nil. *)
Definition serialize (body : option BodyValue) : option string + error :=
  match body with
  | None => inl None
  | Some b =>
      let r := match RapidJson b with
               | Some r => r
               | None => json_Marshal b
               end in
      match r with
      | inr err => inr err
      | inl buf => inl (Some buf)
      end
  end.

(** Lines 237-244. *)
Definition set_headers (c : RapidClient) (t : Token) (body : option BodyValue)
    (req : HTTPRequest) : HTTPRequest :=
  let req := req_Header_Set req acceptHeader contentTypeJSON in
  let req := if nonempty (XAuthorization c)
             then req_Header_Set req xAuthorizationHeader (XAuthorization c)
             else req in
  let req := req_Header_Set req authorizationHeader (GetAuthorizationHeader t) in
  match body with
  | Some _ => req_Header_Set req "Content-Type" contentTypeJSON
  | None => req
  end.

Definition Request (c : RapidClient) (method urlPath : string)
    (body : option BodyValue) (params : Values)
  : M (RapidClient * outcome (option Response * option error)) :=
  let* (c, r) := ensureValidToken c in
  match r with
  | Panic => ret (c, Panic)
  | Return (Some err) =>
      ret (c, Return (None, Some (Errorf_s_w "error ensuring valid token" err)))
  | Return None =>
      match url_Parse P (BaseURL c) with
      | inr err => ret (c, Return (None, Some (Errorf_s_w "error parsing base URL" err)))
      | inl u =>
          let u := resolve u urlPath params in
          match serialize body with
          | inr err =>
              ret (c, Return (None, Some (Errorf_s_w "error marshaling request body" err)))
          | inl reqBody =>
              match http_NewRequest method (URL_String u) reqBody with
              | inr err =>
                  ret (c, Return (None, Some (Errorf_s_w "error creating request" err)))
              | inl req =>
                  match Client_Token c with
                  | None => ret (c, Panic)       (* c.Token.GetAuthorizationHeader() on nil *)
                  | Some t =>
                      let req := set_headers c t body req in
                      let* start := time_Now in
                      let* r := HTTPClient_Do (HTTPClient c) Dispatch req in
                      match r with
                      | Panic => ret (c, Panic)
                      | Return r =>
                          let* duration := time_Since start in
                          match r with
                          | inr err =>
                              ret (c, Return
                                     (None, Some (Errorf_s_w "error sending request" err)))
                          | inl resp =>
                              ret (c, Return
                                     (Some (mkResponse (RespBody resp) (StatusCode resp)
                                              (RespHeader resp) (err_of r) duration
                                              (URL_String u)),
                                      None))
                          end
                      end
                  end
              end
          end
      end
  end.

Definition Get (c : RapidClient) (urlPath : string) (params : Values) :=
  Request c "GET" urlPath None params.

Definition Post (c : RapidClient) (urlPath : string) (body : option BodyValue) :=
  Request c "POST" urlPath body ∅.

Definition Put (c : RapidClient) (urlPath : string) (body : option BodyValue) :=
  Request c "PUT" urlPath body ∅.

Definition Delete (c : RapidClient) (urlPath : string) :=
  Request c "DELETE" urlPath None ∅.

End Client.

(** ** A mock platform

    The server of the package's tests: every request is answered with the
    given status and the mock token document; every effect takes one second. *)

Definition mockTokenResponse : string :=
  "{access_token: mockAccessToken, expires_in: 3600, token_type: Bearer, refresh_token: mockRefreshToken}".

Definition mockToken : Token :=
  mkToken "mockAccessToken" 3600 "Bearer" "mockRefreshToken" 0.

Definition mock_Getenv (baseURL : string) (name : string) : string :=
  if String.eqb name "RAPID_BASE_URL" then baseURL
  else if String.eqb name "RAPID_KEY" then "mockKey"
  else if String.eqb name "RAPID_SECRET" then "mockSecret"
  else "".

(** [url.Parse] on the base URLs of the examples.  The table is all the
    examples need: a URL outside it is answered with an error, which is not
    what the library does for it. *)
Definition mock_url_Parse (s : string) : URL_t + error :=
  if String.eqb s "http://api.example.com" then inl (plainURL "http" "api.example.com" "")
  else if String.eqb s "http://api.example.com/" then inl (plainURL "http" "api.example.com" "/")
  else if String.eqb s "http://mockapi.com" then inl (plainURL "http" "mockapi.com" "")
  else inr (LibError "parse: unsupported URL").

Definition mock_platform (baseURL : string) (status : Z) : Platform :=
  {| os_Getenv := mock_Getenv baseURL;
     clock := fun n => Z.of_nat n * time_Second;
     transport := fun _ _ => inl (mkHTTPResponse status ∅ mockTokenResponse);
     newRequest_err := fun _ _ => None;
     url_Parse := mock_url_Parse;
     Values_Encode := fun _ => "";
     base64_EncodeToString := fun s => s;
     json_Decode_Token := fun body =>
       if String.eqb body mockTokenResponse then inl mockToken
       else inr (LibError "invalid character") |}.

Definition mockClient : RapidClient :=
  mkRapidClient "http://mockapi.com" "mockKey" "mockSecret" "" (Some (mkHTTPClient 0)) None "".

(** The clients of the tests, built as struct literals: at a given base URL
    and holding a given token. *)
Definition clientAt (base : string) (t : Token) : RapidClient :=
  mkRapidClient base "mockKey" "mockSecret" "" (Some (mkHTTPClient 0)) (Some t) "".

Definition heldClient (t : Token) : RapidClient := clientAt "http://mockapi.com" t.

Definition world0 : World := mkWorld 0 [].

(** ** Vocabulary of the statements

    Named parts of the client's behaviour, and predicates on paths, that
    the properties below are stated with. *)

(** The refresh grant applies: refresh is requested and the held token
    carries a refresh value. *)
Definition refresh_applies (c : RapidClient) (isRefresh : bool) : Prop :=
  isRefresh = true /\
  exists t, Client_Token c = Some t /\ Token_RefreshToken t <> "".

(** The request the exchange sends (lines 144-150). *)
Definition tokenRequest (P : Platform) (c : RapidClient) (isRefresh : bool) : HTTPRequest :=
  mkHTTPRequest "POST" (BaseURL c +:+ tokenEndpoint)
    (Header_Set (Header_Set ∅ "Content-Type" contentTypeURLEncoded) authorizationHeader
       ("Basic " +:+ base64_EncodeToString P (Key c +:+ ":" +:+ Secret c)))
    (Some (Values_Encode P (generateParameters c isRefresh))).

(** The world after one reading of the clock. *)
Definition after_Now (w : World) : World := mkWorld (S (tick w)) (trace w).

(** The world after one call of the transport. *)
Definition after_Do (e : Event) (w : World) : World :=
  mkWorld (S (tick w)) (trace w ++ [e]).

(** The token the exchange stores for a decoded document. *)
Definition stamped (P : Platform) (tk : Token) (w : World) : Token :=
  mkToken (Value tk) (ExpiresIn tk) (TokenType tk) (Token_RefreshToken tk)
    (Time_Add (clock P (tick w)) (Duration_mul (time_Duration (ExpiresIn tk)) time_Second)).

(** The validity check [ensureValidToken] makes at world [w]: a token is held
    and the clock reads strictly before its expiry. *)
Definition held_token_valid (P : Platform) (c : RapidClient) (w : World) : bool :=
  match Client_Token c with
  | Some t => fst (IsValid P t w)
  | None => false
  end.

(** The world in which [ensureValidToken] starts the generation: the validity
    check of a held token has read the clock once. *)
Definition after_check (c : RapidClient) (w : World) : World :=
  match Client_Token c with
  | Some _ => after_Now w
  | None => w
  end.

(** The part of [Request] after the token step (lines 208-260), stated on the
    client and world that step leaves. *)
Definition dispatched (P : Platform) (c : RapidClient) (method urlPath : string)
    (body : option BodyValue) (params : Values) (w : World)
  : (RapidClient * outcome (option Response * option error)) * World :=
  match url_Parse P (BaseURL c) with
  | inr err => ((c, Return (None, Some (Errorf_s_w "error parsing base URL" err))), w)
  | inl u =>
      let u := resolve P u urlPath params in
      match serialize body with
      | inr err => ((c, Return (None, Some (Errorf_s_w "error marshaling request body" err))), w)
      | inl reqBody =>
          match newRequest_err P (method_or_GET method) (URL_String u) with
          | Some err => ((c, Return (None, Some (Errorf_s_w "error creating request" err))), w)
          | None =>
              match Client_Token c, HTTPClient c with
              | None, _ => ((c, Panic), w)
              | Some _, None => ((c, Panic), after_Now w)
              | Some t, Some _ =>
                  let req := set_headers c t body (mkHTTPRequest (method_or_GET method) (URL_String u) ∅ reqBody) in
                  let w3 := after_Now (after_Do (Dispatch req) (after_Now w)) in
                  match transport P (S (tick w)) req with
                  | inr err =>
                      ((c, Return (None, Some (Errorf_s_w "error sending request" err))), w3)
                  | inl resp =>
                      ((c, Return
                            (Some (mkResponse (RespBody resp) (StatusCode resp) (RespHeader resp)
                                     None
                                     (Z.max (- 2 ^ 63)
                                        (Z.min (2 ^ 63 - 1)
                                           (clock P (S (S (tick w))) - clock P (tick w))))
                                     (URL_String u)),
                             None)), w3)
                  end
              end
          end
      end
  end.

(** The target request, as [Request] builds it from the client [c1] that the
    token step leaves. *)
Definition targetRequest (P : Platform) (c1 : RapidClient) (t : Token) (u : URL_t)
    (method urlPath : string) (body : option BodyValue) (reqBody : option string)
    (params : Values) : HTTPRequest :=
  set_headers c1 t body
    (mkHTTPRequest (method_or_GET method) (URL_String (resolve P u urlPath params)) ∅ reqBody).


(** The last byte is a separator. *)
Definition ends_with_sep (s : string) : bool :=
  match rev (bytes s) with
  | c :: _ => IsPathSeparator c
  | [] => false
  end.

(** Two adjacent separators occur. *)
Fixpoint has_doubled_sep (l : list ascii) : bool :=
  match l with
  | c1 :: l' =>
      match l' with
      | c2 :: _ => (IsPathSeparator c1 && IsPathSeparator c2) || has_doubled_sep l'
      | [] => false
      end
  | [] => false
  end.

(** The operations a caller can run on a client, and their effect on the
    client and the world.  The results are dropped; an operation that panics
    leaves the client and the world as they are at the panic, and the caller
    that recovers goes on with them. *)
Inductive Op : Type :=
| OpGenerateToken
| OpRefreshToken
| OpRequest (method urlPath : string) (body : option BodyValue) (params : Values)
| OpGet (urlPath : string) (params : Values)
| OpPost (urlPath : string) (body : option BodyValue)
| OpPut (urlPath : string) (body : option BodyValue)
| OpDelete (urlPath : string).

Definition run_op (P : Platform) (o : Op) (c : RapidClient) (w : World)
  : RapidClient * World :=
  match o with
  | OpGenerateToken => let r := GenerateToken P c w in (fst (fst r), snd r)
  | OpRefreshToken => let r := RefreshToken P c w in (fst (fst r), snd r)
  | OpRequest method urlPath body params =>
      let r := Request P c method urlPath body params w in (fst (fst r), snd r)
  | OpGet urlPath params => let r := Get P c urlPath params w in (fst (fst r), snd r)
  | OpPost urlPath body => let r := Post P c urlPath body w in (fst (fst r), snd r)
  | OpPut urlPath body => let r := Put P c urlPath body w in (fst (fst r), snd r)
  | OpDelete urlPath => let r := Delete P c urlPath w in (fst (fst r), snd r)
  end.

Fixpoint run_ops (P : Platform) (ops : list Op) (c : RapidClient) (w : World)
  : RapidClient * World :=
  match ops with
  | [] => (c, w)
  | o :: ops' => let (c', w') := run_op P o c w in run_ops P ops' c' w'
  end.

(** The output begins with a [..] element. *)
Definition dotdot_prefixed (l : list ascii) : Prop :=
  l = ["."%char; "."%char] \/ exists t, l = "."%char :: "."%char :: "/"%char :: t.

(** The last, respectively first, byte is a separator. *)
Fixpoint ends_sep (l : list ascii) : bool :=
  match l with
  | [] => false
  | c :: l' =>
      match l' with
      | [] => IsPathSeparator c
      | _ :: _ => ends_sep l'
      end
  end.

Definition starts_sep (l : list ascii) : bool :=
  match l with
  | c :: _ => IsPathSeparator c
  | [] => false
  end.

(** [dotdot] marks the root of a rooted path, or the end of the leading run of
    [..] elements of a relative one. *)
Definition anchor_ok (r : bool) (out : list ascii) (dd : nat) : Prop :=
  if r then dd = 1%nat /\ starts_sep out = true
  else dd = 0%nat \/ ((2 <= dd)%nat /\ nth (dd - 1) out "000"%char = "."%char).

(** The invariant of the write buffer of [Clean]: no doubled separator, no
    trailing separator except in the root itself, and [dotdot] inside the
    buffer where [anchor_ok] says. *)
Definition buffer_ok (r : bool) (out : list ascii) (dd : nat) : Prop :=
  has_doubled_sep out = false /\
  (ends_sep out = true -> r = true /\ out = ["/"%char]) /\
  (dd <= length out)%nat /\
  anchor_ok r out dd.

(** Scheme and authority, or scheme and opaque part: what [String] writes
    before the path. *)
Definition URL_authority (u : URL_t) : string :=
  (if nonempty (Scheme u) then Scheme u +:+ ":" else "") +:+
  (if nonempty (URL_Opaque u) then URL_Opaque u
   else if nonempty (Scheme u) || nonempty (Host u) || has_User u then
     if OmitHost u && String.eqb (Host u) "" && negb (has_User u) then ""
     else
       (if nonempty (Host u) || nonempty (Path u) || has_User u then "//" else "") +:+
       (match User u with
        | Some ui => Userinfo_String ui +:+ "@"
        | None => ""
        end) +:+
       (if nonempty (Host u) then escape (Host u) encodeHost else "")
   else "").

(** The path as [String] writes it: nothing for an opaque URL. *)
Definition URL_path (u : URL_t) : string :=
  if nonempty (URL_Opaque u) then ""
  else
    let path := EscapedPath u in
    let slash :=
      if nonempty path && negb (starts_with_sep path) && nonempty (Host u) then "/" else "" in
    let dot :=
      if String.eqb (URL_authority u +:+ slash) "" && in_cutset (first_segment (bytes path)) ":"%char
      then "./" else "" in
    slash +:+ dot +:+ path.

(** The query as [String] writes it. *)
Definition URL_query (u : URL_t) : string :=
  if ForceQuery u || nonempty (RawQuery u) then "?" +:+ RawQuery u else "".

(** The fragment as [String] writes it. *)
Definition URL_fragment (u : URL_t) : string :=
  if nonempty (Fragment u) then "#" +:+ EscapedFragment u else "".

(** [n] separators. *)
Definition slashes (n : nat) : string := str (repeat "/"%char n).

(** The cleaned request path names an entry below the base: it is neither
    [.] nor [*], and does not begin with a [..] element. *)
Definition names_entry (c : string) : Prop :=
  c <> "." /\ c <> ".." /\ c <> "*" /\ String.prefix "../" c = false.

(** The URL of the Response that a call returned, if it returned one. *)
Definition RequestURL_of (r : outcome (option Response * option error)) : option string :=
  match r with
  | Return (Some resp, _) => Some (RequestURL resp)
  | _ => None
  end.

(** The configuration of a client: every field but the held token. *)
Definition same_config (c c' : RapidClient) : Prop :=
  BaseURL c' = BaseURL c /\ Key c' = Key c /\ Secret c' = Secret c /\
  UserWebToken c' = UserWebToken c /\ HTTPClient c' = HTTPClient c /\
  XAuthorization c' = XAuthorization c.

(** The client has an HTTP client to send with, and the server answers the
    exchange started at world [w] with status 200 and a body that decodes to
    [tk]. *)
Definition exchange_answers (P : Platform) (c : RapidClient) (isRefresh : bool)
    (w : World) (tk : Token) : Prop :=
  HTTPClient c <> None /\
  newRequest_err P "POST" (BaseURL c +:+ tokenEndpoint) = None /\
  exists resp,
    transport P (tick w) (tokenRequest P c isRefresh) = inl resp /\
    StatusCode resp = 200 /\
    json_Decode_Token P (RespBody resp) = inl tk.

(** The parameters of a fresh generation (lines 181-190). *)
Definition freshParameters (c : RapidClient) : Values :=
  if nonempty (UserWebToken c) then
    {[ "grant_type" := [jwtBearerGrant]; "assertion" := [UserWebToken c] ]}
  else
    {[ "grant_type" := [clientCredentialsGrant];
       "scope" := ["am_application_scope,default"] ]}.

(** A byte that would end the path of a URL, or that cannot stand in one. *)
Definition ends_path (c : ascii) : bool := in_cutset (bytes "?# ") c.

(** * Properties *)

(** ** Token validity *)

Lemma wrap64_id z : in_int64 z -> wrap64 z = z.
Proof.
  unfold in_int64, wrap64. intros H.
  rewrite Z.mod_small by lia. lia.
Qed.

Lemma lifetime_exact L :
  in_int64 (L * 1000000000) ->
  Duration_mul (time_Duration L) time_Second = L * 1000000000.
Proof.
  intros H. unfold Duration_mul, time_Duration, time_Second.
  assert (HL : in_int64 L) by (unfold in_int64 in *; lia).
  rewrite (wrap64_id L HL). now apply wrap64_id.
Qed.

(** C2, as stated, fails: a lifetime of 9223372037 seconds overflows
    [time.Duration]; the token built at time 0 is invalid at time 0 although
    0 is strictly before 0 + 9223372037 seconds. *)
Lemma IsValid_lifetime_overflow :
  let P := mock_platform "" 200 in
  let L := 9223372037 in
  let tok := fst (NewToken P "T" L "Bearer" "R" world0) in
  0 < L /\
  clock P (tick world0) < clock P (tick world0) + L * 1000000000 /\
  fst (IsValid P tok world0) = false.
Proof. vm_compute. repeat split; reflexivity. Qed.

(** C2 (amended): for a token constructed with lifetime [L] seconds at
    creation time [t], where [L] seconds fit in a [time.Duration]
    (L * 10^9 within int64), [IsValid] is true iff the current time is
    strictly before [t + L] seconds; so it is valid at [t] itself exactly when
    L > 0 and invalid at every time from [t + L] seconds on. *)
Theorem IsValid_iff_before_expiry (P : Platform) (value tokenType refreshToken : string)
    (L : Z) (w w' : World) :
  in_int64 (L * 1000000000) ->
  let tok := fst (NewToken P value L tokenType refreshToken w) in
  let t := clock P (tick w) in
  let now := clock P (tick w') in
  (fst (IsValid P tok w') = true <-> now < t + L * 1000000000) /\
  (now = t -> (fst (IsValid P tok w') = true <-> 0 < L)) /\
  (t + L * 1000000000 <= now -> fst (IsValid P tok w') = false).
Proof.
  intros HL tok t now.
  assert (Hv : fst (IsValid P tok w') = (now <? t + L * 1000000000)).
  { unfold tok, IsValid, NewToken, bind, time_Now, ret; simpl.
    unfold Time_Before, Time_Add. now rewrite lifetime_exact. }
  rewrite Hv. split; [apply Z.ltb_lt | split].
  - intros Heq. rewrite Z.ltb_lt. lia.
  - intros Hle. apply Z.ltb_ge. lia.
Qed.

Lemma IsValid_iff_before_expiry_witness :
  let P := mock_platform "" 200 in
  let tok := fst (NewToken P "mockAccessToken" 3600 "Bearer" "mockRefreshToken" world0) in
  in_int64 (3600 * 1000000000) /\
  (fst (IsValid P tok (mkWorld 5 [])) = true <->
   clock P 5%nat < clock P 0%nat + 3600 * 1000000000).
Proof.
  split.
  - unfold in_int64. lia.
  - refine (proj1 (IsValid_iff_before_expiry (mock_platform "" 200) "mockAccessToken"
                     "Bearer" "mockRefreshToken" 3600 world0 (mkWorld 5 []) _)).
    unfold in_int64. lia.
Defined.

(** ** Strings and traces *)

Lemma nonempty_true s : nonempty s = true <-> s <> "".
Proof.
  unfold nonempty. rewrite negb_true_iff. split.
  - intros H ->. discriminate.
  - intros H. apply String.eqb_neq. exact H.
Qed.

Lemma nonempty_false s : nonempty s = false <-> s = "".
Proof.
  unfold nonempty. rewrite negb_false_iff. apply String.eqb_eq.
Qed.

Lemma skipn_length_app {A : Type} (l k : list A) : skipn (length l) (l ++ k) = k.
Proof. induction l; simpl; auto. Qed.

Lemma events_of_app {A : Type} (m : M A) (w : World) (l : list Event) :
  trace (snd (m w)) = trace w ++ l -> events_of m w = l.
Proof. unfold events_of. intros ->. apply skipn_length_app. Qed.

(** ** Construction *)

(** C6: when the base URL, the key or the secret is missing, construction
    returns the configuration error and no client; when all three are present
    it returns a client and no error.  Either way the world is left as it was:
    no network call is made. *)
Theorem NewRapidClient_config (P : Platform) (w : World) :
  (os_Getenv P "RAPID_BASE_URL" = "" \/ os_Getenv P "RAPID_KEY" = "" \/
   os_Getenv P "RAPID_SECRET" = "" ->
   NewRapidClient P w = ((None, Some ErrInvalidConfig), w)) /\
  (os_Getenv P "RAPID_BASE_URL" <> "" -> os_Getenv P "RAPID_KEY" <> "" ->
   os_Getenv P "RAPID_SECRET" <> "" ->
   exists c, NewRapidClient P w = ((Some c, None), w)) /\
  events_of (NewRapidClient P) w = [].
Proof.
  unfold events_of, NewRapidClient.
  destruct (String.eqb (os_Getenv P "RAPID_BASE_URL") "") eqn:Hb;
  destruct (String.eqb (os_Getenv P "RAPID_KEY") "") eqn:Hk;
  destruct (String.eqb (os_Getenv P "RAPID_SECRET") "") eqn:Hs;
  simpl; unfold ret; simpl; rewrite skipn_all;
  repeat match goal with
  | H : String.eqb _ _ = true |- _ => apply String.eqb_eq in H
  | H : String.eqb _ _ = false |- _ => apply String.eqb_neq in H
  end;
  (split; [| split; [| reflexivity]]);
  try (intros; reflexivity);
  try (intros; congruence);
  try (intros [? | [? | ?]]; congruence).
  intros _ _ _. eexists. reflexivity.
Qed.

Example NewRapidClient_missing_secret :
  NewRapidClient
    (mkPlatform (fun name => if String.eqb name "RAPID_SECRET" then "" else "x")
       (fun _ => 0) (fun _ _ => inr (LibError "unreachable")) (fun _ _ => None)
       mock_url_Parse (fun _ => "") (fun s => s) (fun _ => inr (LibError "EOF")))
    world0
  = ((None, Some ErrInvalidConfig), world0).
Proof. reflexivity. Qed.

Example NewRapidClient_mock :
  NewRapidClient (mock_platform "http://mockapi.com" 200) world0
  = ((Some (mkRapidClient "http://mockapi.com" "mockKey" "mockSecret" ""
              (Some (mkHTTPClient 600000000000)) None ""), None), world0).
Proof. reflexivity. Qed.

(** ** Credential exchange *)

Lemma generateOrRefreshToken_run (P : Platform) (c : RapidClient) (isRefresh : bool)
    (w : World) :
  generateOrRefreshToken P c isRefresh w =
  match newRequest_err P "POST" (BaseURL c +:+ tokenEndpoint) with
  | Some err => ((c, Return (Some (Errorf_w_v ErrTokenGeneration err))), w)
  | None =>
      match HTTPClient c with
      | None => ((c, Panic), w)
      | Some _ =>
          let w1 := after_Do (TokenExchange isRefresh (tokenRequest P c isRefresh)) w in
          match transport P (tick w) (tokenRequest P c isRefresh) with
          | inr err => ((c, Return (Some (Errorf_w_v ErrTokenGeneration err))), w1)
          | inl resp =>
              if StatusCode resp =? 200 then
                match json_Decode_Token P (RespBody resp) with
                | inr err => ((c, Return (Some (Errorf_w_v ErrTokenGeneration err))), w1)
                | inl tk => ((set_Token c (stamped P tk w1), Return None), after_Now w1)
                end
              else ((c, Return (Some (Errorf_w_d ErrUnexpectedStatus (StatusCode resp)))), w1)
          end
      end
  end.
Proof.
  unfold generateOrRefreshToken, http_NewRequest.
  change (method_or_GET "POST") with "POST".
  destruct (newRequest_err P "POST" (BaseURL c +:+ tokenEndpoint)) as [err|]; [reflexivity|].
  unfold bind, HTTPClient_Do, req_Header_Set; simpl.
  destruct (HTTPClient c); [|reflexivity].
  fold (tokenRequest P c isRefresh).
  destruct (transport P (tick w) (tokenRequest P c isRefresh)) as [resp|err]; [|reflexivity].
  destruct (StatusCode resp =? 200); simpl; [|reflexivity].
  destruct (json_Decode_Token P (RespBody resp)) as [tk|err]; reflexivity.
Qed.

(** Taking the exchange apart along its steps. *)
Ltac exchange_cases P c isRefresh w :=
  rewrite generateOrRefreshToken_run;
  destruct (newRequest_err P "POST" (BaseURL c +:+ tokenEndpoint)) eqn:?;
    [|destruct (HTTPClient c) eqn:?;
      [destruct (transport P (tick w) (tokenRequest P c isRefresh)) as [?resp|?err] eqn:?;
        [destruct (StatusCode resp =? 200) eqn:?;
          [destruct (json_Decode_Token P (RespBody resp)) eqn:?|]|]|]];
  cbn [fst snd].

(** What an exchange can do to the client: nothing, or store a token. *)
Lemma generateOrRefreshToken_client (P : Platform) (c : RapidClient) (isRefresh : bool)
    (w : World) :
  let r := generateOrRefreshToken P c isRefresh w in
  (snd (fst r) <> Return None /\ fst (fst r) = c) \/
  (snd (fst r) = Return None /\ exists tok, fst (fst r) = set_Token c tok).
Proof.
  cbv zeta. exchange_cases P c isRefresh w;
    try (left; split; [discriminate | reflexivity]).
  right. split; [reflexivity | eexists; reflexivity].
Qed.

(** The exchange sends at most one request, tagged with its flag. *)
Lemma generateOrRefreshToken_trace (P : Platform) (c : RapidClient) (isRefresh : bool)
    (w : World) :
  let w' := snd (generateOrRefreshToken P c isRefresh w) in
  ((newRequest_err P "POST" (BaseURL c +:+ tokenEndpoint) <> None \/ HTTPClient c = None) /\
   w' = w) \/
  (newRequest_err P "POST" (BaseURL c +:+ tokenEndpoint) = None /\ HTTPClient c <> None /\
   trace w' = trace w ++ [TokenExchange isRefresh (tokenRequest P c isRefresh)]).
Proof.
  cbv zeta. exchange_cases P c isRefresh w;
    try (right; split; [reflexivity|split; [discriminate | reflexivity]]).
  - left. split; [left; discriminate | reflexivity].
  - left. split; [now right | reflexivity].
Qed.

(** *** Grant parameters *)

(** C3: the grant parameters of a credential exchange.  With refresh requested
    and a held token carrying a non-empty refresh value: the [refresh_token]
    grant with that value.  Otherwise, with a user assertion configured: the
    JWT-bearer grant with that assertion.  Otherwise: [client_credentials]
    with the fixed scope.  A refresh request without a prior token gets the
    parameters of a fresh generation.  The encoded parameters are the body of
    the one request the exchange sends, once the request is constructed and
    the client has an HTTP client to send it with. *)
Theorem generateParameters_grants (c : RapidClient) :
  (forall t, Client_Token c = Some t -> Token_RefreshToken t <> "" ->
     generateParameters c true =
     {[ "grant_type" := ["refresh_token"]; "refresh_token" := [Token_RefreshToken t] ]}) /\
  (forall isRefresh, ~ refresh_applies c isRefresh -> UserWebToken c <> "" ->
     generateParameters c isRefresh =
     {[ "grant_type" := ["urn:ietf:params:oauth:grant-type:jwt-bearer"];
        "assertion" := [UserWebToken c] ]}) /\
  (forall isRefresh, ~ refresh_applies c isRefresh -> UserWebToken c = "" ->
     generateParameters c isRefresh =
     {[ "grant_type" := ["client_credentials"];
        "scope" := ["am_application_scope,default"] ]}) /\
  (Client_Token c = None -> generateParameters c true = generateParameters c false) /\
  (forall P isRefresh w,
     newRequest_err P "POST" (BaseURL c +:+ tokenEndpoint) = None ->
     HTTPClient c <> None ->
     exists req,
       events_of (generateOrRefreshToken P c isRefresh) w = [TokenExchange isRefresh req] /\
       ReqBody req = Some (Values_Encode P (generateParameters c isRefresh))).
Proof.
  assert (Hfresh : forall isRefresh, ~ refresh_applies c isRefresh ->
            generateParameters c isRefresh =
            if nonempty (UserWebToken c) then
              {[ "grant_type" := [jwtBearerGrant]; "assertion" := [UserWebToken c] ]}
            else
              {[ "grant_type" := [clientCredentialsGrant];
                 "scope" := ["am_application_scope,default"] ]}).
  { intros isRefresh Hn. unfold generateParameters.
    destruct (Client_Token c) as [t|] eqn:Ht; [|reflexivity].
    destruct isRefresh; [|reflexivity]. simpl.
    destruct (nonempty (Token_RefreshToken t)) eqn:Hr; [|reflexivity].
    exfalso. apply Hn. split; [reflexivity|].
    exists t. split; [exact Ht|]. now apply nonempty_true. }
  repeat split.
  - intros t Ht Hr. unfold generateParameters. rewrite Ht. simpl.
    apply nonempty_true in Hr. now rewrite Hr.
  - intros isRefresh Hn Hu. rewrite (Hfresh _ Hn).
    apply nonempty_true in Hu. now rewrite Hu.
  - intros isRefresh Hn Hu. rewrite (Hfresh _ Hn).
    apply nonempty_false in Hu. now rewrite Hu.
  - intros Hnone. unfold generateParameters. now rewrite Hnone.
  - intros P isRefresh w Hn Hc. exists (tokenRequest P c isRefresh).
    split; [|reflexivity]. apply events_of_app.
    destruct (generateOrRefreshToken_trace P c isRefresh w) as [[[Hne|Hne] _]|(_ & _ & Ht)];
      [contradiction | contradiction | exact Ht].
Qed.

(** The three bodies on the clients of the package's tests. *)
Example generateParameters_refresh :
  generateParameters
    (mkRapidClient "http://mockapi.com" "mockKey" "mockSecret" "" (Some (mkHTTPClient 0))
       (Some (mkToken "" 0 "" "mockRefreshToken" 0)) "") true
  = {[ "grant_type" := ["refresh_token"]; "refresh_token" := ["mockRefreshToken"] ]}.
Proof. reflexivity. Qed.

Example generateParameters_fresh :
  generateParameters mockClient true
  = {[ "grant_type" := ["client_credentials"]; "scope" := ["am_application_scope,default"] ]}.
Proof. reflexivity. Qed.

(** *** Failure and success of the exchange *)

(** C4: a status other than 200 makes the exchange (generate or refresh)
    return the unexpected-status error with that status, and the client, its
    Token field included, is what it was before the call.  The same holds when
    the request cannot be constructed, the transport fails or the body does
    not decode: the error wraps the token-generation error and the client is
    unchanged.  In general, whenever the exchange returns an error the client
    is unchanged; so it is when the exchange panics, which it does only for
    want of an HTTP client. *)
Theorem generateOrRefreshToken_failure_atomic (P : Platform) (c : RapidClient)
    (isRefresh : bool) (w : World) :
  let r := generateOrRefreshToken P c isRefresh w in
  let url := BaseURL c +:+ tokenEndpoint in
  let req := tokenRequest P c isRefresh in
  (forall resp, newRequest_err P "POST" url = None -> HTTPClient c <> None ->
     transport P (tick w) req = inl resp -> StatusCode resp <> 200 ->
     fst r = (c, Return (Some (Errorf_w_d ErrUnexpectedStatus (StatusCode resp))))) /\
  (forall err, newRequest_err P "POST" url = Some err ->
     fst r = (c, Return (Some (Errorf_w_v ErrTokenGeneration err)))) /\
  (forall err, newRequest_err P "POST" url = None -> HTTPClient c <> None ->
     transport P (tick w) req = inr err ->
     fst r = (c, Return (Some (Errorf_w_v ErrTokenGeneration err)))) /\
  (forall resp err, newRequest_err P "POST" url = None -> HTTPClient c <> None ->
     transport P (tick w) req = inl resp -> StatusCode resp = 200 ->
     json_Decode_Token P (RespBody resp) = inr err ->
     fst r = (c, Return (Some (Errorf_w_v ErrTokenGeneration err)))) /\
  (forall e, snd (fst r) = Return (Some e) ->
     fst (fst r) = c /\ Client_Token (fst (fst r)) = Client_Token c /\
     (errors_Is e ErrTokenGeneration = true \/ errors_Is e ErrUnexpectedStatus = true)) /\
  (snd (fst r) = Panic -> fst (fst r) = c /\ HTTPClient c = None).
Proof.
  intros r url req. subst r url req.
  split; [|split; [|split; [|split; [|split]]]].
  - intros resp Hn Hc Ht Hs. rewrite generateOrRefreshToken_run, Hn, Ht.
    destruct (HTTPClient c); [|contradiction]. simpl.
    apply Z.eqb_neq in Hs. now rewrite Hs.
  - intros err Hn. now rewrite generateOrRefreshToken_run, Hn.
  - intros err Hn Hc Ht. rewrite generateOrRefreshToken_run, Hn, Ht.
    now destruct (HTTPClient c).
  - intros resp err Hn Hc Ht Hs Hd. rewrite generateOrRefreshToken_run, Hn, Ht.
    destruct (HTTPClient c); [|contradiction]. simpl.
    apply Z.eqb_eq in Hs. now rewrite Hs, Hd.
  - intros e. exchange_cases P c isRefresh w; intros [= <-];
      (split; [reflexivity | split; [reflexivity|]]);
      try (left; reflexivity); right; reflexivity.
  - exchange_cases P c isRefresh w; try discriminate. intros _. now split.
Qed.

Lemma generateOrRefreshToken_failure_atomic_witness :
  let P := mock_platform "http://mockapi.com" 401 in
  let c := heldClient (mkToken "old" 3600 "Bearer" "oldRefresh" 7200000000000) in
  fst (generateOrRefreshToken P c true world0)
  = (c, Return (Some (Errorf_w_d ErrUnexpectedStatus 401))).
Proof.
  intros P c.
  refine (proj1 (generateOrRefreshToken_failure_atomic P c true world0)
            (mkHTTPResponse 401 ∅ mockTokenResponse) _ _ _ _).
  - reflexivity.
  - discriminate.
  - reflexivity.
  - discriminate.
Defined.

(** C5, as stated, fails: with [expires_in] 9223372037 the lifetime overflows
    [time.Duration], and the stored expiry is not the parse time plus that
    many seconds. *)
Lemma generateOrRefreshToken_expiry_overflow :
  let P := mkPlatform (mock_Getenv "http://mockapi.com") (fun n => Z.of_nat n * time_Second)
             (fun _ _ => inl (mkHTTPResponse 200 ∅ "{...}")) (fun _ _ => None)
             mock_url_Parse (fun _ => "") (fun s => s)
             (fun _ => inl (mkToken "T" 9223372037 "Bearer" "R" 0)) in
  let r := GenerateToken P mockClient world0 in
  let parsed_at := clock P 1%nat in
  snd (fst r) = Return None /\
  exists tok, Client_Token (fst (fst r)) = Some tok /\
    ExpiresIn tok = 9223372037 /\
    ExpireTime tok = parsed_at - 9223372036709551616 /\
    ExpireTime tok <> parsed_at + 9223372037 * 1000000000.
Proof.
  vm_compute. split; [reflexivity|].
  eexists. split; [reflexivity|]. repeat split; discriminate.
Qed.

(** C5 (amended): on a status 200 whose body decodes to access_token [T],
    expires_in [N], token_type Bearer and refresh_token [R], where [N] seconds
    fit in a [time.Duration] (N * 10^9 within int64), both GenerateToken and
    RefreshToken, on a client that has an HTTP client to send with,
    return no error and replace the held token, whatever it was,
    by the token with value [T], type Bearer, refresh value [R] and expiry
    equal to the clock reading taken after the response was decoded plus [N]
    seconds; its authorization header value is "Bearer T". *)
Theorem generateOrRefreshToken_success (P : Platform) (c : RapidClient) (isRefresh : bool)
    (w : World) (resp : HTTPResponse) (tk : Token) (T R : string) (N : Z) :
  HTTPClient c <> None ->
  newRequest_err P "POST" (BaseURL c +:+ tokenEndpoint) = None ->
  transport P (tick w) (tokenRequest P c isRefresh) = inl resp ->
  StatusCode resp = 200 ->
  json_Decode_Token P (RespBody resp) = inl tk ->
  Value tk = T -> ExpiresIn tk = N -> TokenType tk = "Bearer" -> Token_RefreshToken tk = R ->
  in_int64 (N * 1000000000) ->
  let r := (if isRefresh then RefreshToken P c else GenerateToken P c) w in
  let parsed_at := clock P (S (tick w)) in
  let tok := mkToken T N "Bearer" R (parsed_at + N * 1000000000) in
  fst r = (set_Token c tok, Return None) /\
  Client_Token (fst (fst r)) = Some tok /\
  GetAuthorizationHeader tok = "Bearer " +:+ T.
Proof.
  intros Hc Hn Ht Hs Hd HT HN HB HR Hfit r parsed_at tok.
  assert (Hr : r = generateOrRefreshToken P c isRefresh w).
  { subst r. now destruct isRefresh. }
  assert (Htok : stamped P tk
            (after_Do (TokenExchange isRefresh (tokenRequest P c isRefresh)) w) = tok).
  { unfold stamped, tok, parsed_at, Time_Add. simpl.
    rewrite HT, HN, HB, HR. now rewrite lifetime_exact. }
  rewrite Hr, generateOrRefreshToken_run, Hn, Ht.
  destruct (HTTPClient c); [|contradiction]. simpl.
  apply Z.eqb_eq in Hs. rewrite Hs, Hd. simpl. rewrite Htok.
  repeat split.
Qed.

Lemma generateOrRefreshToken_success_witness :
  let P := mock_platform "http://mockapi.com" 200 in
  let c := heldClient (mkToken "" 0 "" "mockRefreshToken" 0) in
  Client_Token (fst (fst (RefreshToken P c world0)))
  = Some (mkToken "mockAccessToken" 3600 "Bearer" "mockRefreshToken"
            (clock P 1%nat + 3600 * 1000000000)).
Proof.
  intros P c.
  refine (proj1 (proj2 (generateOrRefreshToken_success P c true world0
            (mkHTTPResponse 200 ∅ mockTokenResponse) mockToken
            "mockAccessToken" "mockRefreshToken" 3600 _ _ _ _ _ _ _ _ _ _)));
    try reflexivity; [discriminate|].
  unfold in_int64. lia.
Defined.

(** ** Dispatch *)

Lemma ensureValidToken_valid (P : Platform) (c : RapidClient) (w : World) :
  held_token_valid P c w = true ->
  ensureValidToken P c w = ((c, Return None), after_Now w).
Proof.
  unfold held_token_valid, ensureValidToken.
  destruct (Client_Token c) as [t|]; [|discriminate].
  unfold IsValid, bind, time_Now, ret; simpl. intros ->. reflexivity.
Qed.

Lemma ensureValidToken_invalid (P : Platform) (c : RapidClient) (w : World) :
  held_token_valid P c w = false ->
  ensureValidToken P c w = generateOrRefreshToken P c false (after_check c w).
Proof.
  unfold held_token_valid, ensureValidToken, after_check, GenerateToken.
  destruct (Client_Token c) as [t|]; [|reflexivity].
  unfold IsValid, bind, time_Now, ret; simpl. intros ->. reflexivity.
Qed.


Lemma Request_run (P : Platform) (c : RapidClient) (method urlPath : string)
    (body : option BodyValue) (params : Values) (w : World) :
  Request P c method urlPath body params w =
  let '((c1, r), w1) := ensureValidToken P c w in
  match r with
  | Panic => ((c1, Panic), w1)
  | Return (Some err) =>
      ((c1, Return (None, Some (Errorf_s_w "error ensuring valid token" err))), w1)
  | Return None => dispatched P c1 method urlPath body params w1
  end.
Proof.
  unfold Request, bind.
  destruct (ensureValidToken P c w) as [[c1 [[err|]|]] w1]; [reflexivity| |reflexivity].
  unfold dispatched, http_NewRequest.
  destruct (url_Parse P (BaseURL c1)) as [u|err]; [|reflexivity].
  destruct (serialize body) as [reqBody|err]; [|reflexivity].
  destruct (newRequest_err P (method_or_GET method) (URL_String (resolve P u urlPath params))); [reflexivity|].
  destruct (Client_Token c1) as [t|]; [|reflexivity].
  unfold time_Now, HTTPClient_Do, time_Since, bind, time_Now, ret, after_Now, after_Do,
    Time_Sub; simpl.
  destruct (HTTPClient c1); [|reflexivity]. simpl.
  destruct (transport P (S (tick w1)) _); reflexivity.
Qed.

Lemma dispatched_client (P : Platform) c method urlPath body params w :
  fst (fst (dispatched P c method urlPath body params w)) = c.
Proof.
  unfold dispatched.
  destruct (url_Parse P (BaseURL c)); [|reflexivity].
  destruct (serialize body); [|reflexivity].
  destruct (newRequest_err P (method_or_GET method) _); [reflexivity|].
  destruct (Client_Token c); [|reflexivity].
  destruct (HTTPClient c); [|reflexivity].
  simpl. destruct (transport P (S (tick w)) _); reflexivity.
Qed.

(** [dispatched] sends nothing, or exactly the target request, built from the
    parsed base, the serialized body and the held token. *)
Lemma dispatched_trace (P : Platform) c method urlPath body params w :
  let w' := snd (dispatched P c method urlPath body params w) in
  trace w' = trace w \/
  exists u reqBody t,
    url_Parse P (BaseURL c) = inl u /\ serialize body = inl reqBody /\
    Client_Token c = Some t /\
    trace w' = trace w ++
      [Dispatch (set_headers c t body
                   (mkHTTPRequest (method_or_GET method) (URL_String (resolve P u urlPath params)) ∅ reqBody))].
Proof.
  unfold dispatched.
  destruct (url_Parse P (BaseURL c)) as [u|]; [|now left].
  destruct (serialize body) as [reqBody|]; [|now left].
  destruct (newRequest_err P (method_or_GET method) _); [now left|].
  destruct (Client_Token c) as [t|]; [|now left].
  destruct (HTTPClient c); [|now left].
  right. exists u, reqBody, t. repeat split.
  simpl. destruct (transport P (S (tick w)) _); reflexivity.
Qed.

(** C1: [Request] starts with the ensure-valid-token step.  With a held token
    whose validity check is true, the client (and so the held token) is
    unchanged and no credential exchange is sent: the only request that may go
    out is the target.  With no token, or a held token whose validity check is
    false, the step is one fresh generation ([isRefresh] = false): its one
    request goes out first, never with the refresh flag, and the target
    request follows it if it is issued at all; nothing goes out only when the
    token request itself cannot be constructed or the client has no HTTP
    client to send it with. *)
Theorem Request_ensures_valid_token (P : Platform) (c : RapidClient)
    (method urlPath : string) (body : option BodyValue) (params : Values) (w : World) :
  let r := Request P c method urlPath body params w in
  let ev := events_of (Request P c method urlPath body params) w in
  if held_token_valid P c w then
    fst (fst r) = c /\
    Client_Token (fst (fst r)) = Client_Token c /\
    (ev = [] \/ exists req, ev = [Dispatch req])
  else
    ensureValidToken P c w = GenerateToken P c (after_check c w) /\
    ((ev = [] /\
      (newRequest_err P "POST" (BaseURL c +:+ tokenEndpoint) <> None \/ HTTPClient c = None)) \/
     ev = [TokenExchange false (tokenRequest P c false)] \/
     exists req, ev = [TokenExchange false (tokenRequest P c false); Dispatch req]).
Proof.
  intros r ev. subst r ev.
  destruct (held_token_valid P c w) eqn:Hv.
  - assert (Hrun := Request_run P c method urlPath body params w).
    rewrite (ensureValidToken_valid _ _ _ Hv) in Hrun. simpl in Hrun.
    rewrite Hrun, dispatched_client. repeat split.
    destruct (dispatched_trace P c method urlPath body params (after_Now w))
      as [Ht | (u & rb & t & _ & _ & _ & Ht)]; simpl in Ht.
    + left. apply events_of_app. rewrite Hrun, Ht. now rewrite app_nil_r.
    + right. eexists. apply events_of_app. rewrite Hrun. exact Ht.
  - split; [now apply ensureValidToken_invalid|].
    assert (Hrun := Request_run P c method urlPath body params w).
    rewrite (ensureValidToken_invalid _ _ _ Hv) in Hrun.
    assert (Hw : trace (after_check c w) = trace w).
    { unfold after_check. now destruct (Client_Token c). }
    destruct (generateOrRefreshToken_trace P c false (after_check c w))
      as [[Hn Hg]|(Hn & Hc & Hg)]; simpl in Hg.
    + left. split; [|exact Hn].
      assert (Hne : snd (fst (generateOrRefreshToken P c false (after_check c w)))
                    <> Return None).
      { rewrite generateOrRefreshToken_run. destruct Hn as [Hn|Hn].
        - destruct (newRequest_err P "POST" (BaseURL c +:+ tokenEndpoint));
            [discriminate | contradiction].
        - rewrite Hn.
          destruct (newRequest_err P "POST" (BaseURL c +:+ tokenEndpoint)); discriminate. }
      destruct (generateOrRefreshToken P c false (after_check c w)) as [[c1 [[err|]|]] w1];
        simpl in Hrun, Hg, Hne; [|contradiction|];
        apply events_of_app; rewrite Hrun; simpl; now rewrite Hg, Hw, app_nil_r.
    + right.
      destruct (generateOrRefreshToken P c false (after_check c w)) as [[c1 [[err|]|]] w1];
        simpl in Hrun, Hg.
      * left. apply events_of_app. rewrite Hrun. simpl. now rewrite Hg, Hw.
      * destruct (dispatched_trace P c1 method urlPath body params w1)
          as [Ht | (u & rb & t & _ & _ & _ & Ht)]; simpl in Ht.
        -- left. apply events_of_app. rewrite Hrun, Ht, Hg. now rewrite Hw.
        -- right. eexists. apply events_of_app. rewrite Hrun, Ht, Hg, Hw.
           now rewrite <- app_assoc.
      * left. apply events_of_app. rewrite Hrun. simpl. now rewrite Hg, Hw.
Qed.

Example Request_with_valid_token :
  events_of (Request (mock_platform "http://mockapi.com" 200)
               (heldClient (mkToken "mockAccessToken" 0 "Bearer" "" 3600000000000))
               "GET" "/mock-endpoint" None ∅) world0
  = [Dispatch (mkHTTPRequest "GET" "http://mockapi.com/mock-endpoint"
                 {[ "Accept" := ["application/json"];
                    "Authorization" := ["Bearer mockAccessToken"] ]} None)].
Proof. vm_compute. reflexivity. Qed.

Example Request_without_token :
  map (fun e => match e with
                | TokenExchange b req => (Some b, URL req)
                | Dispatch req => (None, URL req)
                end)
    (events_of (Request (mock_platform "http://mockapi.com" 200) mockClient
                  "GET" "/mock-endpoint" None ∅) world0)
  = [(Some false, "http://mockapi.com/token"); (None, "http://mockapi.com/mock-endpoint")].
Proof. vm_compute. reflexivity. Qed.

(** The token step changes nothing of the client but its token. *)
Lemma ensureValidToken_client (P : Platform) (c : RapidClient) (w : World) :
  let c1 := fst (fst (ensureValidToken P c w)) in
  c1 = c \/ exists tok, c1 = set_Token c tok.
Proof.
  destruct (held_token_valid P c w) eqn:Hv.
  - rewrite (ensureValidToken_valid _ _ _ Hv). now left.
  - rewrite (ensureValidToken_invalid _ _ _ Hv).
    destruct (generateOrRefreshToken_client P c false (after_check c w)) as [[_ H]|[_ H]];
      [now left | now right].
Qed.

Lemma ensureValidToken_trace (P : Platform) (c : RapidClient) (w : World) :
  let w1 := snd (ensureValidToken P c w) in
  trace w1 = trace w \/ exists b req, trace w1 = trace w ++ [TokenExchange b req].
Proof.
  destruct (held_token_valid P c w) eqn:Hv.
  - rewrite (ensureValidToken_valid _ _ _ Hv). now left.
  - rewrite (ensureValidToken_invalid _ _ _ Hv).
    assert (Hw : trace (after_check c w) = trace w).
    { unfold after_check. now destruct (Client_Token c). }
    destruct (generateOrRefreshToken_trace P c false (after_check c w))
      as [[_ H]|(_ & _ & H)]; simpl in H.
    + left. now rewrite H.
    + right. do 2 eexists. rewrite H, Hw. reflexivity.
Qed.

(** Every target request in the events of [Request] is the one built from the
    client the token step leaves, which [Request] also returns. *)
Lemma Request_dispatch_event (P : Platform) (c : RapidClient) (method urlPath : string)
    (body : option BodyValue) (params : Values) (w : World) (req : HTTPRequest) :
  In (Dispatch req) (events_of (Request P c method urlPath body params) w) ->
  let c1 := fst (fst (Request P c method urlPath body params w)) in
  c1 = fst (fst (ensureValidToken P c w)) /\
  exists u reqBody t,
    url_Parse P (BaseURL c1) = inl u /\ serialize body = inl reqBody /\
    Client_Token c1 = Some t /\
    req = targetRequest P c1 t u method urlPath body reqBody params.
Proof.
  intros Hin c1. subst c1.
  assert (Hrun := Request_run P c method urlPath body params w).
  destruct (ensureValidToken_trace P c w) as [Ht | (b & treq & Ht)];
  destruct (ensureValidToken P c w) as [[c1 [[err|]|]] w1]; simpl in *.
  - rewrite (events_of_app _ _ []) in Hin; [destruct Hin|].
    rewrite Hrun. simpl. now rewrite Ht, app_nil_r.
  - rewrite Hrun, dispatched_client. split; [reflexivity|].
    destruct (dispatched_trace P c1 method urlPath body params w1)
      as [Hd | (u & rb & t & Hu & Hs & Hc & Hd)]; simpl in Hd.
    + rewrite (events_of_app _ _ []) in Hin; [destruct Hin|].
      rewrite Hrun, Hd, Ht. now rewrite app_nil_r.
    + rewrite (events_of_app _ _ _ ltac:(rewrite Hrun, Hd, Ht; reflexivity)) in Hin.
      destruct Hin as [[= <-]|[]]. exists u, rb, t. easy.
  - rewrite (events_of_app _ _ []) in Hin; [destruct Hin|].
    rewrite Hrun. simpl. now rewrite Ht, app_nil_r.
  - rewrite (events_of_app _ _ [TokenExchange b treq]) in Hin.
    + destruct Hin as [Hin|[]]. discriminate.
    + rewrite Hrun. simpl. now rewrite Ht.
  - rewrite Hrun, dispatched_client. split; [reflexivity|].
    destruct (dispatched_trace P c1 method urlPath body params w1)
      as [Hd | (u & rb & t & Hu & Hs & Hc & Hd)]; simpl in Hd.
    + rewrite (events_of_app _ _ [TokenExchange b treq]) in Hin.
      * destruct Hin as [Hin|[]]. discriminate.
      * rewrite Hrun, Hd, Ht. reflexivity.
    + rewrite (events_of_app _ _ [TokenExchange b treq; Dispatch
         (set_headers c1 t body
            (mkHTTPRequest (method_or_GET method) (URL_String (resolve P u urlPath params)) ∅ rb))]) in Hin.
      * destruct Hin as [Hin|[[= <-]|[]]]; [discriminate|]. exists u, rb, t. easy.
      * rewrite Hrun, Hd, Ht. now rewrite <- app_assoc.
  - rewrite (events_of_app _ _ [TokenExchange b treq]) in Hin.
    + destruct Hin as [Hin|[]]. discriminate.
    + rewrite Hrun. simpl. now rewrite Ht.
Qed.

Lemma set_headers_lookup (c : RapidClient) (t : Token) (body : option BodyValue)
    (req : HTTPRequest) :
  Header_of req = ∅ ->
  let h := Header_of (set_headers c t body req) in
  h !! "Accept" = Some ["application/json"] /\
  h !! "X-Authorization" =
    (if nonempty (XAuthorization c) then Some [XAuthorization c] else None) /\
  h !! "Authorization" = Some [GetAuthorizationHeader t] /\
  h !! "Content-Type" =
    match body with Some _ => Some ["application/json"] | None => None end.
Proof.
  intros He h. subst h. unfold set_headers, req_Header_Set, Header_Set.
  destruct body, (nonempty (XAuthorization c)); simpl; rewrite He;
    unfold acceptHeader, xAuthorizationHeader, authorizationHeader, contentTypeJSON;
    repeat split; simplify_map_eq; reflexivity.
Qed.

(** C7: every target request that [Request] sends carries
    Accept: application/json; X-Authorization exactly when that value is
    configured non-empty, with that value; Authorization equal to the
    authorization-header value of the token then held; and
    Content-Type: application/json exactly when a body was supplied.  [Get]
    and [Delete] are [Request] without a body, so theirs carry no
    Content-Type. *)
Theorem Request_headers (P : Platform) (c : RapidClient) (method urlPath : string)
    (body : option BodyValue) (params : Values) (w : World) (req : HTTPRequest) :
  In (Dispatch req) (events_of (Request P c method urlPath body params) w) ->
  let h := Header_of req in
  h !! "Accept" = Some ["application/json"] /\
  h !! "X-Authorization" =
    (if nonempty (XAuthorization c) then Some [XAuthorization c] else None) /\
  (exists t,
     Client_Token (fst (fst (Request P c method urlPath body params w))) = Some t /\
     h !! "Authorization" = Some [GetAuthorizationHeader t]) /\
  h !! "Content-Type" =
    match body with Some _ => Some ["application/json"] | None => None end /\
  Get P c urlPath params = Request P c "GET" urlPath None params /\
  Delete P c urlPath = Request P c "DELETE" urlPath None ∅.
Proof.
  intros Hin h. subst h.
  destruct (Request_dispatch_event P c method urlPath body params w req Hin)
    as (Hc1 & u & rb & t & _ & _ & Ht & ->).
  assert (Hx : XAuthorization (fst (fst (Request P c method urlPath body params w)))
               = XAuthorization c).
  { rewrite Hc1. destruct (ensureValidToken_client P c w) as [-> | [tok ->]]; reflexivity. }
  unfold targetRequest.
  destruct (set_headers_lookup (fst (fst (Request P c method urlPath body params w))) t body
              (mkHTTPRequest (method_or_GET method) (URL_String (resolve P u urlPath params)) ∅ rb) eq_refl)
    as (Ha & Hxa & Hau & Hct).
  rewrite Hx in Hxa.
  repeat split; try assumption.
  exists t. split; assumption.
Qed.

Lemma Request_headers_witness :
  let P := mock_platform "http://mockapi.com" 200 in
  let c := heldClient (mkToken "mockAccessToken" 0 "Bearer" "" 3600000000000) in
  let req := mkHTTPRequest "GET" "http://mockapi.com/mock-endpoint"
               {[ "Accept" := ["application/json"];
                  "Authorization" := ["Bearer mockAccessToken"] ]} None in
  In (Dispatch req) (events_of (Request P c "GET" "/mock-endpoint" None ∅) world0) /\
  Header_of req !! "Accept" = Some ["application/json"] /\
  Header_of req !! "Content-Type" = None.
Proof.
  intros P c req.
  assert (Hin : In (Dispatch req)
                  (events_of (Request P c "GET" "/mock-endpoint" None ∅) world0)).
  { left. vm_compute. reflexivity. }
  split; [exact Hin|].
  pose proof (Request_headers P c "GET" "/mock-endpoint" None ∅ world0 req Hin)
    as (Ha & _ & _ & Hct & _).
  split; [exact Ha | exact Hct].
Defined.





Example Request_mock_endpoint :
  snd (fst (Request (mock_platform "http://mockapi.com" 200)
              (heldClient (mkToken "mockAccessToken" 0 "Bearer" "" 3600000000000))
              "GET" "/mock-endpoint" None ∅ world0))
  = Return (Some (mkResponse mockTokenResponse 200 ∅ None 2000000000
                    "http://mockapi.com/mock-endpoint"), None).
Proof. vm_compute. reflexivity. Qed.

(** ** The base URL *)

Lemma str_bytes (s : string) : str (bytes s) = s.
Proof. apply string_of_list_ascii_of_string. Qed.

Lemma bytes_str (l : list ascii) : bytes (str l) = l.
Proof. apply list_ascii_of_string_of_list_ascii. Qed.

Lemma str_app (l k : list ascii) : str (l ++ k) = str l +:+ str k.
Proof. induction l; simpl; [reflexivity | now rewrite IHl]. Qed.

Lemma bytes_app (s t : string) : bytes (s +:+ t) = bytes s ++ bytes t.
Proof. induction s; simpl; [reflexivity | now rewrite IHs]. Qed.

Lemma trim_left_split (cutset l : list ascii) :
  exists pre, l = pre ++ trim_left cutset l /\
              Forall (fun c => in_cutset cutset c = true) pre.
Proof.
  induction l as [|c l IH]; simpl.
  - exists []. split; [reflexivity | constructor].
  - destruct (in_cutset cutset c) eqn:Hc.
    + destruct IH as (pre & Hl & Hpre). exists (c :: pre). split.
      * simpl. now rewrite <- Hl.
      * now constructor.
    + exists []. split; [reflexivity | constructor].
Qed.

Lemma trim_left_head (cutset l : list ascii) :
  match trim_left cutset l with
  | c :: _ => in_cutset cutset c = false
  | [] => True
  end.
Proof.
  induction l as [|c l IH]; simpl; [exact I|].
  destruct (in_cutset cutset c) eqn:Hc; [exact IH | exact Hc].
Qed.

Lemma all_sep_repeat (l : list ascii) :
  Forall (fun c => in_cutset ["/"%char] c = true) l -> l = repeat "/"%char (length l).
Proof.
  induction 1 as [|c l Hc _ IH]; simpl; [reflexivity|].
  unfold in_cutset in Hc. simpl in Hc. rewrite orb_false_r in Hc.
  apply Ascii.eqb_eq in Hc. subst c. now rewrite <- IH.
Qed.

Lemma rev_repeat_same {A : Type} (x : A) (n : nat) : rev (repeat x n) = repeat x n.
Proof.
  induction n as [|n IH]; simpl; [reflexivity|].
  rewrite IH. symmetry. apply repeat_cons.
Qed.

(** [strings.TrimRight s "/"] is [s] without its trailing separators. *)
Lemma TrimRight_sep (s : string) :
  (exists n, s = strings_TrimRight s "/" +:+ str (repeat "/"%char n)) /\
  ends_with_sep (strings_TrimRight s "/") = false.
Proof.
  unfold strings_TrimRight, ends_with_sep. change (bytes "/") with ["/"%char]. split.
  - destruct (trim_left_split ["/"%char] (rev (bytes s))) as (pre & Hl & Hpre).
    exists (length pre).
    rewrite <- str_app.
    rewrite <- (str_bytes s) at 1. f_equal.
    rewrite <- (rev_involutive (bytes s)) at 1. rewrite Hl at 1.
    rewrite rev_app_distr. f_equal.
    rewrite (all_sep_repeat pre Hpre) at 1.
    apply rev_repeat_same.
  - rewrite bytes_str, rev_involutive.
    pose proof (trim_left_head ["/"%char] (rev (bytes s))) as H.
    destruct (trim_left ["/"%char] (rev (bytes s))) as [|c r]; [reflexivity|].
    unfold in_cutset in H. simpl in H. rewrite orb_false_r in H. exact H.
Qed.

(** What [Request] adds to the trace: at most one fresh token request, then at
    most one target request. *)
Lemma Request_trace (P : Platform) (c : RapidClient) (method urlPath : string)
    (body : option BodyValue) (params : Values) (w : World) :
  exists pre post,
    trace (snd (Request P c method urlPath body params w)) = trace w ++ pre ++ post /\
    (pre = [] \/ pre = [TokenExchange false (tokenRequest P c false)]) /\
    (post = [] \/ exists req, post = [Dispatch req]).
Proof.
  rewrite Request_run.
  assert (Hpre : exists pre,
             trace (snd (ensureValidToken P c w)) = trace w ++ pre /\
             (pre = [] \/ pre = [TokenExchange false (tokenRequest P c false)])).
  { destruct (held_token_valid P c w) eqn:Hv.
    - rewrite (ensureValidToken_valid _ _ _ Hv). exists []. simpl.
      rewrite app_nil_r. auto.
    - rewrite (ensureValidToken_invalid _ _ _ Hv).
      assert (Hw : trace (after_check c w) = trace w).
      { unfold after_check. now destruct (Client_Token c). }
      destruct (generateOrRefreshToken_trace P c false (after_check c w))
        as [[_ H]|(_ & _ & H)]; simpl in H.
      + exists []. rewrite H, Hw, app_nil_r. auto.
      + eexists. rewrite H, Hw. auto. }
  destruct Hpre as (pre & Ht & Hpre).
  destruct (ensureValidToken P c w) as [[c1 [[err|]|]] w1]; simpl in *.
  - exists pre, []. rewrite app_nil_r. auto.
  - destruct (dispatched_trace P c1 method urlPath body params w1)
      as [Hd | (u & rb & t & _ & _ & _ & Hd)]; simpl in Hd.
    + exists pre, []. rewrite Hd, Ht, app_nil_r. auto.
    + exists pre. eexists. rewrite Hd, Ht, <- app_assoc. eauto.
  - exists pre, []. rewrite app_nil_r. auto.
Qed.

(** *** The operations of a client, in any order *)

Lemma Request_BaseURL (P : Platform) c method urlPath body params w :
  BaseURL (fst (fst (Request P c method urlPath body params w))) = BaseURL c.
Proof.
  rewrite Request_run.
  pose proof (ensureValidToken_client P c w) as Hc.
  destruct (ensureValidToken P c w) as [[c1 [[err|]|]] w1]; simpl in *.
  - destruct Hc as [-> | [tok ->]]; reflexivity.
  - rewrite dispatched_client. destruct Hc as [-> | [tok ->]]; reflexivity.
  - destruct Hc as [-> | [tok ->]]; reflexivity.
Qed.

Lemma generateOrRefreshToken_BaseURL (P : Platform) c isRefresh w :
  BaseURL (fst (fst (generateOrRefreshToken P c isRefresh w))) = BaseURL c.
Proof.
  destruct (generateOrRefreshToken_client P c isRefresh w) as [[_ H]|[_ [tok H]]];
    simpl in H; now rewrite H.
Qed.

Lemma run_op_BaseURL (P : Platform) (o : Op) (c : RapidClient) (w : World) :
  BaseURL (fst (run_op P o c w)) = BaseURL c.
Proof.
  destruct o; simpl;
    try apply generateOrRefreshToken_BaseURL; apply Request_BaseURL.
Qed.

(** Every token request an operation sends goes to the base URL of the client
    it runs on, followed by the token endpoint. *)
Lemma run_op_trace (P : Platform) (o : Op) (c : RapidClient) (w : World) :
  exists l, trace (snd (run_op P o c w)) = trace w ++ l /\
    forall b req, In (TokenExchange b req) l -> URL req = BaseURL c +:+ tokenEndpoint.
Proof.
  assert (Hgen : forall b, exists l,
            trace (snd (generateOrRefreshToken P c b w)) = trace w ++ l /\
            forall b' req, In (TokenExchange b' req) l ->
                           URL req = BaseURL c +:+ tokenEndpoint).
  { intros b. destruct (generateOrRefreshToken_trace P c b w) as [[_ H]|(_ & _ & H)];
      simpl in H.
    - exists []. rewrite H, app_nil_r. split; [reflexivity | intros ? ? []].
    - eexists. split; [exact H|]. intros b' req [[= <- <-]|[]]. reflexivity. }
  assert (Hreq : forall method urlPath body params, exists l,
            trace (snd (Request P c method urlPath body params w)) = trace w ++ l /\
            forall b' req, In (TokenExchange b' req) l ->
                           URL req = BaseURL c +:+ tokenEndpoint).
  { intros method urlPath body params.
    destruct (Request_trace P c method urlPath body params w)
      as (pre & post & Ht & Hpre & Hpost).
    exists (pre ++ post). split; [exact Ht|].
    intros b' req Hin. apply in_app_or in Hin. destruct Hin as [Hin|Hin].
    - destruct Hpre as [-> | ->]; [destruct Hin|].
      destruct Hin as [[= <- <-]|[]]. reflexivity.
    - destruct Hpost as [-> | [r ->]]; [destruct Hin|].
      destruct Hin as [Hin|[]]. discriminate. }
  destruct o; simpl; try apply Hgen; apply Hreq.
Qed.

Lemma run_ops_BaseURL (P : Platform) (ops : list Op) (c : RapidClient) (w : World) :
  BaseURL (fst (run_ops P ops c w)) = BaseURL c.
Proof.
  revert c w. induction ops as [|o ops IH]; intros c w; simpl; [reflexivity|].
  pose proof (run_op_BaseURL P o c w) as Ho.
  destruct (run_op P o c w) as [c' w']. simpl in Ho. now rewrite IH.
Qed.

Lemma run_ops_trace (P : Platform) (ops : list Op) (c : RapidClient) (w : World) :
  exists l, trace (snd (run_ops P ops c w)) = trace w ++ l /\
    forall b req, In (TokenExchange b req) l -> URL req = BaseURL c +:+ tokenEndpoint.
Proof.
  revert c w. induction ops as [|o ops IH]; intros c w; simpl.
  - exists []. rewrite app_nil_r. split; [reflexivity | intros ? ? []].
  - pose proof (run_op_BaseURL P o c w) as Hb.
    destruct (run_op_trace P o c w) as (l1 & Ht1 & Hl1).
    destruct (run_op P o c w) as [c' w']. simpl in Hb, Ht1.
    destruct (IH c' w') as (l2 & Ht2 & Hl2).
    exists (l1 ++ l2). split.
    + now rewrite Ht2, Ht1, app_assoc.
    + intros b req Hin. apply in_app_or in Hin. destruct Hin as [Hin|Hin].
      * now apply (Hl1 b).
      * rewrite <- Hb. now apply (Hl2 b).
Qed.

(** C10, as stated, fails: only trailing separators are stripped.  With the
    base URL configured as http://api.example.com//v1/ the token endpoint URL
    is http://api.example.com//v1/token, whose path has a doubled separator. *)
Lemma token_URL_doubled_separator :
  let P := mock_platform "http://api.example.com//v1/" 200 in
  exists c,
    NewRapidClient P world0 = ((Some c, None), world0) /\
    BaseURL c = "http://api.example.com//v1" /\
    URL (tokenRequest P c false) = "http://api.example.com" +:+ "//v1/token" /\
    has_doubled_sep (bytes "//v1/token") = true.
Proof. eexists. vm_compute. repeat split. Qed.

(** C10 (amended): for a client constructed by NewRapidClient the stored base
    URL is the configured value without its trailing '/' characters, so it
    does not end in '/'; no sequence of operations (GenerateToken,
    RefreshToken, Request, Get, Post, Put, Delete) changes it; hence every
    token request goes to that base followed by "/token", with a single
    separator at the junction.  Separators inside the configured value are
    kept as they are. *)
Theorem NewRapidClient_BaseURL_trimmed (P : Platform) (w w0 w1 : World) (c : RapidClient)
    (ops : list Op) :
  NewRapidClient P w = ((Some c, None), w0) ->
  let configured := os_Getenv P "RAPID_BASE_URL" in
  let r := run_ops P ops c w1 in
  BaseURL c = strings_TrimRight configured "/" /\
  (exists n, configured = BaseURL c +:+ str (repeat "/"%char n)) /\
  ends_with_sep (BaseURL c) = false /\
  BaseURL (fst r) = BaseURL c /\
  (forall b, URL (tokenRequest P (fst r) b) = BaseURL c +:+ "/token") /\
  (forall b req, In (TokenExchange b req) (skipn (length (trace w1)) (trace (snd r))) ->
                 URL req = BaseURL c +:+ "/token").
Proof.
  intros Hnew configured r. subst r.
  assert (Hbase : BaseURL c = strings_TrimRight configured "/").
  { unfold NewRapidClient in Hnew. subst configured.
    destruct (String.eqb (os_Getenv P "RAPID_BASE_URL") "" ||
              String.eqb (os_Getenv P "RAPID_KEY") "" ||
              String.eqb (os_Getenv P "RAPID_SECRET") ""); [discriminate|].
    unfold ret in Hnew. injection Hnew as <- _. reflexivity. }
  destruct (TrimRight_sep configured) as [Hn Hend].
  rewrite <- Hbase in Hn, Hend.
  pose proof (run_ops_BaseURL P ops c w1) as Hinv.
  repeat split; try assumption.
  - intros b. simpl. now rewrite Hinv.
  - intros b req Hin.
    destruct (run_ops_trace P ops c w1) as (l & Ht & Hl).
    rewrite Ht, skipn_length_app in Hin. now apply (Hl b).
Qed.

Lemma NewRapidClient_BaseURL_trimmed_witness :
  let P := mock_platform "http://mockapi.com///" 200 in
  let c := mkRapidClient "http://mockapi.com" "mockKey" "mockSecret" ""
             (Some (mkHTTPClient defaultTimeout)) None "" in
  let ops := [OpGet "/mock-endpoint" ∅; OpRefreshToken; OpDelete "/mock-endpoint"] in
  NewRapidClient P world0 = ((Some c, None), world0) /\
  BaseURL (fst (run_ops P ops c world0)) = "http://mockapi.com" /\
  URL (tokenRequest P (fst (run_ops P ops c world0)) true) = "http://mockapi.com/token".
Proof.
  intros P c ops.
  assert (Hnew : NewRapidClient P world0 = ((Some c, None), world0)) by reflexivity.
  split; [exact Hnew|].
  pose proof (NewRapidClient_BaseURL_trimmed P world0 world0 world0 c ops Hnew)
    as (_ & _ & _ & Hinv & Hurl & _).
  split; [exact Hinv | exact (Hurl true)].
Defined.

(** ** Path joining *)

Lemma at_elem_end_app_sep (a x y : list ascii) :
  at_elem_end (a ++ "/"%char :: x) = at_elem_end (a ++ "/"%char :: y).
Proof. destruct a; reflexivity. Qed.

Lemma Clean_loop_collapse_le (n : nat) :
  forall a, (length a <= n)%nat ->
  forall r x cp out dd,
    Clean_loop r (a ++ "/"%char :: "/"%char :: x) cp out dd =
    Clean_loop r (a ++ "/"%char :: x) cp out dd.
Proof.
  induction n as [|n IH]; intros a Hlen r x cp out dd.
  - destruct a; [reflexivity | simpl in Hlen; lia].
  - destruct a as [|c a']; [reflexivity|].
    simpl in Hlen.
    cbn [app Clean_loop].
    destruct (IsPathSeparator c); [apply IH; lia|].
    destruct cp; [apply IH; lia|].
    rewrite (at_elem_end_app_sep a' ("/"%char :: x) x).
    destruct (Ascii.eqb c "." && at_elem_end (a' ++ "/"%char :: x)); [apply IH; lia|].
    destruct a' as [|c2 a''].
    { cbn [app]. change (Ascii.eqb "/" ".") with false.
      rewrite andb_false_r. cbn [andb]. apply (IH []). simpl. lia. }
    cbn [app]. simpl in Hlen.
    rewrite (at_elem_end_app_sep a'' ("/"%char :: x) x).
    destruct (Ascii.eqb c "." && Ascii.eqb c2 "." && at_elem_end (a'' ++ "/"%char :: x)).
    + destruct (dd <? length out)%nat; [apply IH; lia|].
      destruct (negb r); apply IH; lia.
    + apply (IH (c2 :: a'')). simpl. lia.
Qed.

Lemma Clean_loop_collapse (k : nat) (a : list ascii) r x cp out dd :
  Clean_loop r (a ++ "/"%char :: repeat "/"%char k ++ x) cp out dd =
  Clean_loop r (a ++ "/"%char :: x) cp out dd.
Proof.
  induction k as [|k IH]; [reflexivity|].
  cbn [repeat app]. rewrite (Clean_loop_collapse_le (length a) a (le_n _)). exact IH.
Qed.

(** [..] never removes below [dotdot]. *)
Lemma backtrack_bounds (out : list ascii) (dd w0 : nat) :
  (dd <= w0)%nat -> (dd <= backtrack out dd w0 <= w0)%nat.
Proof.
  induction w0 as [|w IH]; intros H; simpl; [lia|].
  destruct ((dd <? S w)%nat && negb (IsPathSeparator (nth (S w) out "000"%char))) eqn:Hc.
  - apply andb_prop in Hc. destruct Hc as [Hc _]. apply Nat.ltb_lt in Hc.
    specialize (IH ltac:(lia)). lia.
  - lia.
Qed.

Lemma dotdot_prefixed_take (l : list ascii) (w : nat) :
  dotdot_prefixed l -> (2 <= w)%nat -> dotdot_prefixed (firstn w l).
Proof.
  intros [-> | [t ->]] Hw.
  - left. do 2 (destruct w as [|w]; [lia|]). simpl. now rewrite firstn_nil.
  - do 2 (destruct w as [|w]; [lia|]). destruct w as [|w]; simpl.
    + now left.
    + right. eauto.
Qed.

Lemma dotdot_prefixed_snoc (l : list ascii) (c : ascii) :
  dotdot_prefixed l -> (3 <= length l)%nat -> dotdot_prefixed (l ++ [c]).
Proof.
  intros [-> | [t ->]] Hl; [simpl in Hl; lia|]. right. simpl. eauto.
Qed.

Lemma dotdot_prefixed_sep (l k : list ascii) :
  dotdot_prefixed l -> dotdot_prefixed ((l ++ ["/"%char]) ++ k).
Proof.
  intros [-> | [t ->]]; right; simpl; eauto.
Qed.

(** Once a relative path has climbed above its start, its cleaned form begins
    with [..] for good. *)
Lemma Clean_loop_climbed (n : nat) :
  forall path, (length path <= n)%nat ->
  forall cp out dd,
    (2 <= dd <= length out)%nat -> dotdot_prefixed out ->
    (cp = true -> (3 <= length out)%nat) ->
    dotdot_prefixed (Clean_loop false path cp out dd).
Proof.
  induction n as [|n IH]; intros path Hlen cp out dd Hdd Hpre Hcp.
  - destruct path; [exact Hpre | simpl in Hlen; lia].
  - destruct path as [|c rest]; [exact Hpre|].
    simpl in Hlen. cbn [Clean_loop].
    destruct (IsPathSeparator c).
    { apply IH; [lia | exact Hdd | exact Hpre | discriminate]. }
    destruct cp.
    { specialize (Hcp eq_refl). apply IH; [lia | | | ].
      - rewrite length_app. simpl. lia.
      - now apply dotdot_prefixed_snoc.
      - intros _. rewrite length_app. simpl. lia. }
    destruct (Ascii.eqb c "." && at_elem_end rest).
    { apply IH; [lia | exact Hdd | exact Hpre | discriminate]. }
    assert (Hne : (length out =? 0)%nat = false) by (apply Nat.eqb_neq; lia).
    assert (Hdefault : dotdot_prefixed
              (Clean_loop false rest true
                 ((if false && negb (length out =? 1)%nat || negb false && negb (length out =? 0)%nat
                   then out ++ ["/"%char] else out) ++ [c]) dd)).
    { rewrite Hne. cbn [negb andb orb]. apply IH; [lia | | | ].
      - rewrite !length_app. simpl. lia.
      - now apply dotdot_prefixed_sep.
      - intros _. rewrite !length_app. simpl. lia. }
    destruct rest as [|c2 rest2]; [exact Hdefault|].
    destruct (Ascii.eqb c "." && Ascii.eqb c2 "." && at_elem_end rest2); [|exact Hdefault].
    simpl in Hlen.
    destruct (dd <? length out)%nat eqn:Hlt.
    + apply Nat.ltb_lt in Hlt.
      pose proof (backtrack_bounds out dd (length out - 1) ltac:(lia)) as Hb.
      apply IH; [lia | | | discriminate].
      * rewrite length_firstn. lia.
      * apply dotdot_prefixed_take; [exact Hpre | lia].
    + cbn [negb].
      assert (Hpos : (0 <? length out)%nat = true) by (apply Nat.ltb_lt; lia).
      rewrite Hpos. apply IH; [lia | | | discriminate].
      * rewrite !length_app. simpl. lia.
      * now apply dotdot_prefixed_sep.
Qed.

Lemma backtrack_rooted (out : list ascii) (k : nat) :
  backtrack ("/"%char :: out) 1 (S k) = S (backtrack out 0 k).
Proof.
  induction k as [|k IH]; [reflexivity|].
  cbn [backtrack].
  change (1 <? S (S k))%nat with true. change (0 <? S k)%nat with true.
  cbn [andb]. change (nth (S (S k)) ("/"%char :: out) "000"%char) with (nth (S k) out "000"%char).
  destruct (negb (IsPathSeparator (nth (S k) out "000"%char))); [exact IH | reflexivity].
Qed.

(** A rooted and a relative run over the same bytes stay in step, the rooted
    buffer being the relative one behind the root separator, unless the
    relative path climbs above its start. *)
Lemma Clean_loop_rooted_relative (n : nat) :
  forall path, (length path <= n)%nat ->
  forall cp out,
    Clean_loop true path cp ("/"%char :: out) 1 = "/"%char :: Clean_loop false path cp out 0 \/
    dotdot_prefixed (Clean_loop false path cp out 0).
Proof.
  induction n as [|n IH]; intros path Hlen cp out.
  - destruct path; [now left | simpl in Hlen; lia].
  - destruct path as [|c rest]; [now left|].
    simpl in Hlen. cbn [Clean_loop].
    destruct (IsPathSeparator c); [apply IH; lia|].
    destruct cp; [apply (IH rest ltac:(lia) true (out ++ [c]))|].
    destruct (Ascii.eqb c "." && at_elem_end rest); [apply IH; lia|].
    assert (Hsep : (true && negb (length ("/"%char :: out) =? 1)%nat
                    || negb true && negb (length ("/"%char :: out) =? 0)%nat)
                   = (false && negb (length out =? 1)%nat
                      || negb false && negb (length out =? 0)%nat)).
    { destruct out; reflexivity. }
    rewrite Hsep.
    assert (Hdefault :
      Clean_loop true rest true
        ((if false && negb (length out =? 1)%nat || negb false && negb (length out =? 0)%nat
          then ("/"%char :: out) ++ ["/"%char] else "/"%char :: out) ++ [c]) 1
      = "/"%char :: Clean_loop false rest true
          ((if false && negb (length out =? 1)%nat || negb false && negb (length out =? 0)%nat
            then out ++ ["/"%char] else out) ++ [c]) 0 \/
      dotdot_prefixed (Clean_loop false rest true
          ((if false && negb (length out =? 1)%nat || negb false && negb (length out =? 0)%nat
            then out ++ ["/"%char] else out) ++ [c]) 0)).
    { destruct (false && negb (length out =? 1)%nat || negb false && negb (length out =? 0)%nat);
        apply (IH rest ltac:(lia) true). }
    destruct rest as [|c2 rest2]; [exact Hdefault|].
    destruct (Ascii.eqb c "." && Ascii.eqb c2 "." && at_elem_end rest2); [|exact Hdefault].
    simpl in Hlen.
    destruct out as [|o out'].
    + right. cbn. apply (Clean_loop_climbed (length rest2)).
      * apply le_n.
      * simpl. lia.
      * now left.
      * discriminate.
    + change (1 <? length ("/"%char :: o :: out'))%nat with true.
      change (0 <? length (o :: out'))%nat with true. cbn iota.
      change (length ("/"%char :: o :: out') - 1)%nat with (S (length out')).
      change (length (o :: out') - 1)%nat with (length out' - 0)%nat.
      rewrite Nat.sub_0_r, backtrack_rooted.
      apply (IH rest2 ltac:(lia) false).
Qed.

(** *** No doubled separators *)

Lemma ends_sep_app (l k : list ascii) : k <> [] -> ends_sep (l ++ k) = ends_sep k.
Proof.
  intros Hk. induction l as [|c l IH]; [reflexivity|].
  cbn [app ends_sep]. destruct (l ++ k) eqn:E; [|exact IH].
  destruct l, k; try discriminate; congruence.
Qed.

Lemma starts_sep_app (l k : list ascii) : l <> [] -> starts_sep (l ++ k) = starts_sep l.
Proof. destruct l; [congruence | reflexivity]. Qed.

Lemma has_doubled_sep_app (a b : list ascii) :
  has_doubled_sep (a ++ b) =
  has_doubled_sep a || has_doubled_sep b || (ends_sep a && starts_sep b).
Proof.
  induction a as [|c a IH]; [simpl; now rewrite orb_false_r|].
  destruct a as [|c' a'].
  - destruct b as [|d b]; [simpl; now rewrite andb_false_r|].
    change (has_doubled_sep ([c] ++ d :: b))
      with (IsPathSeparator c && IsPathSeparator d || has_doubled_sep (d :: b)).
    generalize (has_doubled_sep (d :: b)). intros h. cbn.
    destruct (IsPathSeparator c), (IsPathSeparator d), h; reflexivity.
  - change (has_doubled_sep ((c :: c' :: a') ++ b))
      with (IsPathSeparator c && IsPathSeparator c' || has_doubled_sep ((c' :: a') ++ b)).
    change (has_doubled_sep (c :: c' :: a'))
      with (IsPathSeparator c && IsPathSeparator c' || has_doubled_sep (c' :: a')).
    change (ends_sep (c :: c' :: a')) with (ends_sep (c' :: a')).
    rewrite IH.
    destruct (IsPathSeparator c && IsPathSeparator c'); reflexivity.
Qed.

Lemma has_doubled_sep_take (l : list ascii) (w : nat) :
  has_doubled_sep l = false -> has_doubled_sep (firstn w l) = false.
Proof.
  intros H. rewrite <- (firstn_skipn w l), has_doubled_sep_app in H.
  apply orb_false_elim in H. destruct H as [H _].
  apply orb_false_elim in H. now destruct H.
Qed.

Lemma ends_sep_nth (l : list ascii) :
  ends_sep l = true -> IsPathSeparator (nth (length l - 1) l "000"%char) = true.
Proof.
  induction l as [|c l IH]; [discriminate|].
  destruct l as [|c' l']; [trivial|].
  intros H. cbn [ends_sep] in H. specialize (IH H).
  cbn [length] in *. rewrite Nat.sub_succ, Nat.sub_0_r in *. exact IH.
Qed.

Lemma has_doubled_sep_nth (l : list ascii) (i : nat) :
  has_doubled_sep l = false ->
  IsPathSeparator (nth i l "000"%char) = true ->
  IsPathSeparator (nth (S i) l "000"%char) = true -> False.
Proof.
  revert i. induction l as [|c l IH]; intros i H Hi HS.
  - destruct i; discriminate.
  - destruct l as [|c' l'].
    + destruct i; discriminate.
    + cbn [has_doubled_sep] in H. apply orb_false_elim in H. destruct H as [H1 H2].
      destruct i as [|i].
      * cbn in Hi, HS. rewrite Hi, HS in H1. discriminate.
      * apply (IH i H2); assumption.
Qed.

Lemma backtrack_stop (out : list ascii) (dd w0 : nat) :
  (dd <= w0)%nat ->
  backtrack out dd w0 = dd \/
  IsPathSeparator (nth (backtrack out dd w0) out "000"%char) = true.
Proof.
  induction w0 as [|w IH]; intros H; simpl; [left; lia|].
  destruct (dd <? S w)%nat eqn:Hlt; cbn [andb].
  - destruct (IsPathSeparator (nth (S w) out "000"%char)) eqn:Hs; cbn [negb].
    + now right.
    + apply Nat.ltb_lt in Hlt. apply IH. lia.
  - apply Nat.ltb_ge in Hlt. left. lia.
Qed.

Lemma anchor_ok_app r out dd k :
  (dd <= length out)%nat -> anchor_ok r out dd -> anchor_ok r (out ++ k) dd.
Proof.
  unfold anchor_ok. intros Hl H. destruct r.
  - destruct H as [-> Hs]. split; [reflexivity|].
    rewrite starts_sep_app; [exact Hs|]. destruct out; [simpl in Hl; lia | discriminate].
  - destruct H as [-> | [H2 Hn]]; [now left|]. right. split; [exact H2|].
    rewrite app_nth1 by lia. exact Hn.
Qed.

Lemma anchor_ok_take r out dd w :
  (dd <= w)%nat -> anchor_ok r out dd -> anchor_ok r (firstn w out) dd.
Proof.
  unfold anchor_ok. intros Hw H. destruct r.
  - destruct H as [-> Hs]. split; [reflexivity|].
    destruct w as [|w]; [lia|]. destruct out; [discriminate | exact Hs].
  - destruct H as [-> | [H2 Hn]]; [now left|]. right. split; [exact H2|].
    rewrite nth_firstn.
    assert (Hlt : (dd - 1 <? w)%nat = true) by (apply Nat.ltb_lt; lia).
    now rewrite Hlt.
Qed.

(** Appending a byte of a path element. *)
Lemma buffer_ok_elem r x dd c :
  has_doubled_sep x = false -> (dd <= length x)%nat -> anchor_ok r x dd ->
  IsPathSeparator c = false -> buffer_ok r (x ++ [c]) dd.
Proof.
  intros Hd Hl Ha Hc. unfold buffer_ok.
  rewrite has_doubled_sep_app, Hd, (ends_sep_app x [c]) by discriminate.
  cbn [has_doubled_sep starts_sep ends_sep]. rewrite Hc, andb_false_r.
  repeat split; try discriminate.
  - rewrite length_app. simpl. lia.
  - now apply anchor_ok_app.
Qed.

Lemma has_doubled_sep_sep (out : list ascii) :
  has_doubled_sep out = false -> ends_sep out = false ->
  has_doubled_sep (out ++ ["/"%char]) = false.
Proof. intros Hd He. now rewrite has_doubled_sep_app, Hd, He. Qed.

Lemma Clean_loop_buffer_ok (n : nat) :
  forall path, (length path <= n)%nat ->
  forall r cp out dd,
    buffer_ok r out dd -> exists dd', buffer_ok r (Clean_loop r path cp out dd) dd'.
Proof.
  induction n as [|n IH]; intros path Hlen r cp out dd Hok.
  - destruct path; [eauto | simpl in Hlen; lia].
  - destruct path as [|c rest]; [eauto|].
    simpl in Hlen. cbn [Clean_loop].
    destruct (IsPathSeparator c) eqn:Hc; [apply IH; [lia | exact Hok]|].
    assert (Hsnoc : forall x, has_doubled_sep x = false -> (dd <= length x)%nat ->
                      anchor_ok r x dd ->
                      exists dd', buffer_ok r (Clean_loop r rest true (x ++ [c]) dd) dd').
    { intros x Hd Hl Ha. apply IH; [lia|]. now apply buffer_ok_elem. }
    pose proof Hok as (Hd & He & Hl & Ha).
    destruct cp; [now apply Hsnoc|].
    destruct (Ascii.eqb c "." && at_elem_end rest).
    { apply IH; [lia | exact Hok]. }
    assert (Hdefault : exists dd',
              buffer_ok r
                (Clean_loop r rest true
                   ((if r && negb (length out =? 1)%nat || negb r && negb (length out =? 0)%nat
                     then out ++ ["/"%char] else out) ++ [c]) dd) dd').
    { destruct (r && negb (length out =? 1)%nat || negb r && negb (length out =? 0)%nat) eqn:Hs;
        [|now apply Hsnoc].
      assert (Hends : ends_sep out = false).
      { destruct (ends_sep out) eqn:Hends; [|reflexivity].
        destruct (He eq_refl) as [-> ->]. discriminate. }
      apply Hsnoc.
      - now apply has_doubled_sep_sep.
      - rewrite length_app. simpl. lia.
      - now apply anchor_ok_app. }
    destruct rest as [|c2 rest2]; [exact Hdefault|].
    destruct (Ascii.eqb c "." && Ascii.eqb c2 "." && at_elem_end rest2); [|exact Hdefault].
    simpl in Hlen.
    destruct (dd <? length out)%nat eqn:Hlt.
    + apply Nat.ltb_lt in Hlt.
      pose proof (backtrack_bounds out dd (length out - 1) ltac:(lia)) as Hb.
      pose proof (backtrack_stop out dd (length out - 1) ltac:(lia)) as Hstop.
      set (w := backtrack out dd (length out - 1)) in *.
      apply IH; [lia|].
      assert (Hlw : length (firstn w out) = w) by (rewrite length_firstn; lia).
      split; [now apply has_doubled_sep_take|].
      split; [|split; [lia | apply anchor_ok_take; [lia | exact Ha]]].
      intros Hends. pose proof Hends as Hends0.
      apply ends_sep_nth in Hends. rewrite Hlw in Hends.
      destruct w as [|w'] eqn:Hw.
      { simpl in Hends0. discriminate. }
      rewrite nth_firstn in Hends.
      assert (Hlt' : (S w' - 1 <? S w')%nat = true) by (apply Nat.ltb_lt; lia).
      rewrite Hlt' in Hends. rewrite Nat.sub_succ, Nat.sub_0_r in Hends.
      destruct Hstop as [Hdd | Hsep].
      * unfold anchor_ok in Ha. destruct r.
        -- destruct Ha as [-> Hs]. injection Hdd as ->.
           split; [reflexivity|].
           destruct out as [|o out']; [discriminate|].
           simpl in Hs |- *. apply Ascii.eqb_eq in Hs. now subst o.
        -- exfalso. destruct Ha as [-> | [H2 Hn]]; [lia|].
           rewrite <- Hdd in Hn. rewrite Nat.sub_succ, Nat.sub_0_r in Hn.
           rewrite Hn in Hends. discriminate.
      * exfalso. exact (has_doubled_sep_nth out w' Hd Hends Hsep).
    + apply Nat.ltb_ge in Hlt.
      destruct r; cbn [negb]; [apply IH; [lia | exact Hok]|].
      assert (Hends : ends_sep out = false).
      { destruct (ends_sep out) eqn:Hends; [|reflexivity].
        destruct (He eq_refl) as [? _]. discriminate. }
      set (x := if (0 <? length out)%nat then out ++ ["/"%char] else out).
      assert (Hx : has_doubled_sep x = false).
      { subst x. destruct (0 <? length out)%nat; [now apply has_doubled_sep_sep | exact Hd]. }
      apply IH; [lia|].
      split; [|split; [|split]].
      * rewrite has_doubled_sep_app, Hx. cbn. now rewrite andb_false_r.
      * rewrite ends_sep_app by discriminate. discriminate.
      * lia.
      * right. rewrite length_app. cbn [length]. split; [lia|].
        rewrite app_nth2 by lia.
        replace (length x + 2 - 1 - length x)%nat with 1%nat by lia. reflexivity.
Qed.

Lemma Clean_bytes_no_doubled (l : list ascii) : has_doubled_sep (Clean_bytes l) = false.
Proof.
  destruct l as [|c rest]; [reflexivity|].
  unfold Clean_bytes.
  assert (H : exists r dd,
            buffer_ok r (if IsPathSeparator c
                         then Clean_loop true rest false ["/"%char] 1
                         else Clean_loop false (c :: rest) false [] 0) dd).
  { destruct (IsPathSeparator c).
    - exists true. apply (Clean_loop_buffer_ok (length rest)); [apply le_n|].
      split; [reflexivity|]. split; [intros _; split; reflexivity|].
      split; [apply le_n | split; reflexivity].
    - exists false. apply (Clean_loop_buffer_ok (length (c :: rest))); [apply le_n|].
      split; [reflexivity|]. split; [discriminate|]. split; [apply le_n | now left]. }
  destruct H as (r & dd & Hd & _).
  destruct (if IsPathSeparator c then _ else _); [reflexivity | exact Hd].
Qed.

Lemma filepath_Join_no_doubled (elem : list string) :
  has_doubled_sep (bytes (filepath_Join elem)) = false.
Proof.
  induction elem as [|e rest IH]; [reflexivity|].
  cbn [filepath_Join]. destruct (String.eqb e ""); [exact IH|].
  unfold filepath_Clean. rewrite bytes_str. apply Clean_bytes_no_doubled.
Qed.

(** *** Escaping keeps the separators *)

Lemma upperhex_not_sep (n : nat) : IsPathSeparator (upperhex n) = false.
Proof.
  unfold upperhex.
  do 16 (destruct n as [|n]; [reflexivity|]).
  cbn. now destruct n.
Qed.

Lemma escape_byte_path (c : ascii) :
  has_doubled_sep (escape_byte encodePath c) = false /\
  starts_sep (escape_byte encodePath c) = IsPathSeparator c /\
  ends_sep (escape_byte encodePath c) = IsPathSeparator c /\
  escape_byte encodePath c <> [].
Proof.
  unfold escape_byte. destruct (IsPathSeparator c) eqn:Hc.
  - apply Ascii.eqb_eq in Hc. subst c. cbn. repeat split. discriminate.
  - destruct (shouldEscape c encodePath).
    + generalize (upperhex_not_sep (nat_of_ascii c / 16))
                 (upperhex_not_sep (nat_of_ascii c mod 16)).
      generalize (upperhex (nat_of_ascii c / 16)) (upperhex (nat_of_ascii c mod 16)).
      intros h1 h2 H1 H2. cbn. rewrite H1, H2. repeat split. discriminate.
    + cbn. rewrite Hc. repeat split. discriminate.
Qed.

Lemma escape_path_seps (l : list ascii) :
  has_doubled_sep l = false ->
  has_doubled_sep (flat_map (escape_byte encodePath) l) = false /\
  starts_sep (flat_map (escape_byte encodePath) l) = starts_sep l.
Proof.
  induction l as [|c l IH]; intros H; [split; reflexivity|].
  destruct (escape_byte_path c) as (Hd & Hs & He & Hne).
  assert (Hl : has_doubled_sep l = false /\ IsPathSeparator c && starts_sep l = false).
  { destruct l as [|c' l']; [split; [reflexivity | apply andb_false_r]|].
    cbn [has_doubled_sep] in H. apply orb_false_elim in H. destruct H as [H1 H2].
    split; assumption. }
  destruct Hl as [Hl Hcs]. destruct (IH Hl) as [IHd IHs].
  cbn [flat_map]. split.
  - rewrite has_doubled_sep_app, Hd, IHd, He, IHs. exact Hcs.
  - rewrite starts_sep_app by exact Hne. exact Hs.
Qed.

(** *** The parts of a rendered URL *)

Lemma append_assoc (a b c : string) : (a +:+ b) +:+ c = a +:+ (b +:+ c).
Proof.
  induction a as [|x a IH]; [reflexivity|].
  change (String x (a +:+ b) +:+ c = String x (a +:+ b +:+ c)).
  change (String x ((a +:+ b) +:+ c) = String x (a +:+ b +:+ c)).
  now rewrite IH.
Qed.

Lemma URL_String_parts (u : URL_t) :
  URL_String u = URL_authority u +:+ URL_path u +:+ URL_query u +:+ URL_fragment u.
Proof.
  unfold URL_String, URL_path, URL_authority, URL_query, URL_fragment. cbv zeta.
  destruct (nonempty (URL_Opaque u)); rewrite !append_assoc; reflexivity.
Qed.

Lemma starts_with_sep_bytes (s : string) : starts_with_sep s = starts_sep (bytes s).
Proof. destruct s; reflexivity. Qed.

Lemma has_doubled_sep_root (l : list ascii) :
  has_doubled_sep ("/"%char :: l) = starts_sep l || has_doubled_sep l.
Proof. destruct l; reflexivity. Qed.

Lemma append_nonempty (a : string) (c : ascii) (s : string) :
  String.eqb (a +:+ String c s) "" = false.
Proof. destruct a; reflexivity. Qed.

Lemma has_doubled_sep_cons (c : ascii) (l : list ascii) :
  has_doubled_sep (c :: l) = (IsPathSeparator c && starts_sep l) || has_doubled_sep l.
Proof. destruct l; [now rewrite andb_false_r | reflexivity]. Qed.

Lemma ishex_not_sep (c : ascii) : ishex c = true -> IsPathSeparator c = false.
Proof.
  intros H. destruct (IsPathSeparator c) eqn:Hc; [|reflexivity].
  apply Ascii.eqb_eq in Hc. subst c. discriminate H.
Qed.

(** Decoding keeps a leading separator and a doubled separator: an encoded
    byte is written with a percent sign and two hex digits. *)
Lemma unescape_bytes_seps (mode : encoding) (n : nat) :
  forall l p, (length l <= n)%nat -> unescape_bytes mode l = Some p ->
    (starts_sep l = true -> starts_sep p = true) /\
    (has_doubled_sep l = true -> has_doubled_sep p = true).
Proof.
  induction n as [|n IH]; intros l p Hlen H.
  - destruct l; [|simpl in Hlen; lia]. injection H as <-. split; discriminate.
  - destruct l as [|c rest]; [injection H as <-; split; discriminate|].
    cbn [unescape_bytes] in H. destruct (Ascii.eqb c "%") eqn:Hc.
    + apply Ascii.eqb_eq in Hc. subst c.
      destruct rest as [|h1 [|h2 rest']]; try discriminate.
      destruct (ishex h1 && ishex h2) eqn:Hh; cbn [negb] in H; [|discriminate].
      apply andb_prop in Hh. destruct Hh as [H1 H2].
      apply ishex_not_sep in H1. apply ishex_not_sep in H2.
      destruct (match mode with encodeHost => _ | _ => false end); [discriminate|].
      destruct (unescape_bytes mode rest') as [p'|] eqn:Hr; [|discriminate].
      injection H as <-.
      destruct (IH rest' p') as [_ IHd]; [simpl in Hlen; lia | exact Hr |].
      split; [discriminate|].
      rewrite !has_doubled_sep_cons, H1, H2. cbn [andb orb IsPathSeparator].
      change (Ascii.eqb "%" "/") with false. cbn [andb orb].
      intros Hd. rewrite (IHd Hd). apply orb_true_r.
    + destruct (match mode with encodeHost => _ | _ => false end); [discriminate|].
      destruct (unescape_bytes mode rest) as [p'|] eqn:Hr; [|discriminate].
      injection H as <-.
      destruct (IH rest p') as [IHs IHd]; [simpl in Hlen; lia | exact Hr |].
      split; [intros Hs; exact Hs|].
      rewrite !has_doubled_sep_cons. intros Hd.
      apply orb_prop in Hd. destruct Hd as [Hd | Hd].
      * apply andb_prop in Hd. destruct Hd as [Ha Hb]. now rewrite Ha, (IHs Hb).
      * rewrite (IHd Hd). apply orb_true_r.
Qed.

(** What [EscapedPath] returns when it takes the hint. *)
Lemma EscapedPath_cases (u : URL_t) :
  (EscapedPath u = RawPath u /\ validEncoded (RawPath u) encodePath = true /\
   unescape_bytes encodePath (bytes (RawPath u)) = Some (bytes (Path u))) \/
  EscapedPath u = (if String.eqb (Path u) "*" then "*" else escape (Path u) encodePath).
Proof.
  unfold EscapedPath, unescape.
  destruct (nonempty (RawPath u)); [|now right].
  destruct (validEncoded (RawPath u) encodePath); [|now right].
  destruct (unescape_bytes encodePath (bytes (RawPath u))) as [p|]; [|now right].
  cbn [option_map andb]. destruct (String.eqb (str p) (Path u)) eqn:Hp; [|now right].
  apply String.eqb_eq in Hp. left. rewrite <- Hp, bytes_str. auto.
Qed.

Lemma EscapedPath_seps (u : URL_t) :
  has_doubled_sep (bytes (Path u)) = false ->
  has_doubled_sep (bytes (EscapedPath u)) = false.
Proof.
  intros H. destruct (EscapedPath_cases u) as [(-> & _ & Hu) | ->].
  - destruct (has_doubled_sep (bytes (RawPath u))) eqn:Hd; [|reflexivity].
    destruct (unescape_bytes_seps encodePath _ _ _ (le_n _) Hu) as [_ Hdd].
    rewrite (Hdd Hd) in H. discriminate.
  - destruct (String.eqb (Path u) "*"); [reflexivity|].
    unfold escape. rewrite bytes_str. now apply escape_path_seps.
Qed.

Lemma first_segment_starts (l : list ascii) (c : ascii) :
  in_cutset (first_segment l) c = true -> starts_sep l = false.
Proof.
  destruct l as [|d l]; [reflexivity|]. cbn.
  destruct (IsPathSeparator d); [discriminate | reflexivity].
Qed.

(** The path of a rendered URL has no doubled separator when the [Path] field
    has none. *)
Lemma URL_path_no_doubled (u : URL_t) :
  has_doubled_sep (bytes (Path u)) = false ->
  has_doubled_sep (bytes (URL_path u)) = false.
Proof.
  intros H. apply EscapedPath_seps in H. unfold URL_path. cbv zeta.
  destruct (nonempty (URL_Opaque u)); [reflexivity|].
  set (path := EscapedPath u) in *.
  destruct (nonempty path && negb (starts_with_sep path) && nonempty (Host u)) eqn:Hs.
  - rewrite append_nonempty. cbn [andb].
    apply andb_prop in Hs. destruct Hs as [Hs _].
    apply andb_prop in Hs. destruct Hs as [_ Hs]. apply negb_true_iff in Hs.
    change (has_doubled_sep ("/"%char :: bytes path) = false).
    rewrite has_doubled_sep_root, <- starts_with_sep_bytes, Hs. exact H.
  - destruct (String.eqb (URL_authority u +:+ "") "" &&
              in_cutset (first_segment (bytes path)) ":"%char) eqn:Hd.
    + apply andb_prop in Hd. destruct Hd as [_ Hd].
      apply first_segment_starts in Hd.
      change (has_doubled_sep ("."%char :: "/"%char :: bytes path) = false).
      change (has_doubled_sep ("."%char :: "/"%char :: bytes path))
        with (has_doubled_sep ("/"%char :: bytes path)).
      now rewrite has_doubled_sep_root, Hd.
    + exact H.
Qed.

(** *** Joining with slash variations *)

Lemma repeat_sep_mid (n m : nat) :
  repeat "/"%char n ++ "/"%char :: repeat "/"%char m = "/"%char :: repeat "/"%char (n + m).
Proof.
  induction n as [|n IH]; [reflexivity|]. cbn [repeat app Nat.add]. now rewrite IH.
Qed.

Lemma Clean_loop_leading_seps (k : nat) r x out dd :
  Clean_loop r (repeat "/"%char k ++ x) false out dd = Clean_loop r x false out dd.
Proof. induction k as [|k IH]; [reflexivity|]. cbn. exact IH. Qed.

Lemma Clean_bytes_leading_seps (k : nat) (b : list ascii) :
  Clean_bytes ("/"%char :: repeat "/"%char k ++ b) = Clean_bytes ("/"%char :: b).
Proof.
  unfold Clean_bytes. change (IsPathSeparator "/") with true. cbv iota.
  now rewrite Clean_loop_leading_seps.
Qed.

Lemma Clean_bytes_collapse (a b : list ascii) (n m : nat) :
  a <> [] ->
  Clean_bytes ((a ++ repeat "/"%char n) ++ "/"%char :: repeat "/"%char m ++ b) =
  Clean_bytes (a ++ "/"%char :: b).
Proof.
  intros Ha. destruct a as [|c a0]; [congruence|].
  rewrite <- app_assoc.
  change (repeat "/"%char n ++ "/"%char :: repeat "/"%char m ++ b)
    with (repeat "/"%char n ++ ("/"%char :: repeat "/"%char m) ++ b).
  rewrite app_assoc with (l := repeat "/"%char n), repeat_sep_mid.
  cbn [app]. unfold Clean_bytes. destruct (IsPathSeparator c).
  - now rewrite (Clean_loop_collapse (n + m) a0).
  - change (c :: a0 ++ "/"%char :: repeat "/"%char (n + m) ++ b)
      with ((c :: a0) ++ "/"%char :: repeat "/"%char (n + m) ++ b).
    change (c :: a0 ++ "/"%char :: b) with ((c :: a0) ++ "/"%char :: b).
    now rewrite Clean_loop_collapse.
Qed.

Lemma slashes_bytes (n : nat) : bytes (slashes n) = repeat "/"%char n.
Proof. apply bytes_str. Qed.

(** With a non-empty base path, trailing slashes of the base and leading
    slashes of the request path do not change the join. *)
Lemma filepath_Join_variations (p q : string) (n m : nat) :
  p <> "" ->
  filepath_Join [p +:+ slashes n; slashes m +:+ q] = filepath_Join [p; q].
Proof.
  intros Hp. cbn [filepath_Join].
  assert (Hp1 : String.eqb p "" = false) by now apply String.eqb_neq.
  assert (Hp2 : String.eqb (p +:+ slashes n) "" = false).
  { destruct p; [congruence | reflexivity]. }
  rewrite Hp1, Hp2. cbn [strings_Join]. unfold filepath_Clean. f_equal.
  rewrite !bytes_app, !slashes_bytes. change (bytes "/") with ["/"%char].
  cbn [app]. apply Clean_bytes_collapse.
  destruct p; [congruence | discriminate].
Qed.

Lemma filepath_Join_empty_base (q : string) :
  filepath_Join [""; q] = if String.eqb q "" then "" else filepath_Clean q.
Proof. reflexivity. Qed.

Lemma filepath_Join_root_base (s q : string) :
  filepath_Join [String "/" s; q] = filepath_Clean (String "/" (s +:+ "/" +:+ q)).
Proof. reflexivity. Qed.

Lemma filepath_Clean_leading_seps (k : nat) (q : string) :
  filepath_Clean (String "/" (slashes k +:+ q)) = filepath_Clean (String "/" q).
Proof.
  unfold filepath_Clean. f_equal.
  change (bytes (String "/" (slashes k +:+ q))) with ("/"%char :: bytes (slashes k +:+ q)).
  rewrite bytes_app, slashes_bytes. apply Clean_bytes_leading_seps.
Qed.

(** With an empty base path, any slash before the request path anchors the
    join at the root. *)
Lemma filepath_Join_anchored (q : string) (n m : nat) :
  (0 < n)%nat \/ (0 < m)%nat \/ starts_with_sep q = true ->
  filepath_Join [slashes n; slashes m +:+ q] = filepath_Clean (String "/" q).
Proof.
  intros H. destruct n as [|n].
  - change (slashes 0) with "". rewrite filepath_Join_empty_base.
    destruct m as [|m].
    + change (slashes 0 +:+ q) with q.
      destruct H as [H | [H | H]]; [lia | lia |].
      destruct q as [|c q0]; [discriminate|]. cbn in H.
      apply Ascii.eqb_eq in H. subst c.
      change (String.eqb (String "/" q0) "") with false. cbv iota.
      symmetry. apply (filepath_Clean_leading_seps 1 q0).
    + change (slashes (S m) +:+ q) with (String "/" (slashes m +:+ q)).
      change (String.eqb (String "/" (slashes m +:+ q)) "") with false. cbv iota.
      apply filepath_Clean_leading_seps.
  - change (slashes (S n)) with (String "/" (slashes n)).
    rewrite filepath_Join_root_base.
    unfold filepath_Clean. f_equal.
    change (bytes (String "/" (slashes n +:+ "/" +:+ slashes m +:+ q)))
      with ("/"%char :: bytes (slashes n +:+ "/" +:+ slashes m +:+ q)).
    rewrite !bytes_app, !slashes_bytes. change (bytes "/") with ["/"%char].
    change (["/"%char] ++ repeat "/"%char m ++ bytes q)
      with (("/"%char :: repeat "/"%char m) ++ bytes q).
    rewrite app_assoc, repeat_sep_mid.
    change (bytes (String "/" q)) with ("/"%char :: bytes q).
    apply (Clean_bytes_leading_seps (S (n + m))).
Qed.

Lemma filepath_Clean_rooted_relative (q : string) :
  starts_with_sep q = false -> names_entry (filepath_Clean q) ->
  filepath_Clean (String "/" q) = String "/" (filepath_Clean q) /\
  filepath_Clean q <> "" /\ starts_with_sep (filepath_Clean q) = false.
Proof.
  intros Hq (Hdot & Hdd & _ & Hpre). unfold filepath_Clean in *.
  change (bytes (String "/" q)) with ("/"%char :: bytes q).
  rewrite starts_with_sep_bytes in Hq.
  pose proof (Clean_bytes_no_doubled ("/"%char :: bytes q)) as Hnd.
  destruct (bytes q) as [|c rest]; [exfalso; now apply Hdot|].
  cbn [starts_sep] in Hq. unfold Clean_bytes in *. rewrite Hq in *.
  change (IsPathSeparator "/") with true in *. cbv iota in *.
  destruct (Clean_loop_rooted_relative (length (c :: rest)) (c :: rest) (le_n _) false [])
    as [Heq | Hclimb].
  - rewrite Heq in *.
    destruct (Clean_loop false (c :: rest) false [] 0) as [|o out]; [exfalso; now apply Hdot|].
    split; [reflexivity|]. split; [discriminate|].
    rewrite has_doubled_sep_root in Hnd. apply orb_false_elim in Hnd.
    rewrite starts_with_sep_bytes, bytes_str. apply Hnd.
  - exfalso. destruct Hclimb as [E | [t E]]; rewrite E in *.
    + now apply Hdd.
    + destruct t; vm_compute in Hpre; discriminate.
Qed.

Lemma escape_nonempty (s : string) : s <> "" -> String.eqb (escape s encodePath) "" = false.
Proof.
  destruct s as [|c s]; [congruence|]. intros _. unfold escape.
  change (bytes (String c s)) with (c :: bytes s). cbn [flat_map].
  destruct (escape_byte_path c) as (_ & _ & _ & Hne).
  destruct (escape_byte encodePath c); [congruence | reflexivity].
Qed.

Lemma escape_starts (s : string) :
  starts_with_sep (escape s encodePath) = starts_with_sep s.
Proof.
  rewrite !starts_with_sep_bytes. unfold escape. rewrite bytes_str.
  destruct (bytes s) as [|c l]; [reflexivity|]. cbn [flat_map].
  destruct (escape_byte_path c) as (_ & Hs & _ & Hne).
  rewrite starts_sep_app by exact Hne. exact Hs.
Qed.

Lemma escape_root (s : string) :
  escape (String "/" s) encodePath = String "/" (escape s encodePath).
Proof. reflexivity. Qed.

(** Behind a host, a relative path is written with the separator that the
    rooted path carries itself. *)
Lemma URL_String_relative (u : URL_t) (rel : string) :
  RawPath u = "" -> Host u <> "" ->
  rel <> "" -> starts_with_sep rel = false -> rel <> "*" ->
  URL_String (set_Path u rel) = URL_String (set_Path u (String "/" rel)).
Proof.
  intros Hraw Hh Hr Hs Hstar.
  pose proof Hh as Hh'. apply nonempty_true in Hh.
  apply String.eqb_neq in Hh'.
  unfold URL_String, EscapedPath, EscapedFragment, has_User, set_Path.
  cbn [Scheme URL_Opaque User Host Path RawPath OmitHost ForceQuery RawQuery Fragment
       RawFragment].
  destruct (nonempty (URL_Opaque u)); [reflexivity|].
  rewrite Hraw, Hh, Hh'. change (nonempty "") with false.
  rewrite !orb_true_r, !andb_false_r. cbn [orb andb].
  apply String.eqb_neq in Hstar. rewrite Hstar.
  assert (Hroot : String.eqb (String "/" rel) "*" = false) by reflexivity.
  rewrite Hroot, escape_root.
  unfold nonempty at 2. rewrite (escape_nonempty rel Hr), escape_starts, Hs.
  cbn [negb andb starts_with_sep nonempty String.eqb].
  change (IsPathSeparator "/") with true. cbn [negb andb].
  set (user := match User u with Some ui => Userinfo_String ui +:+ "@" | None => "" end).
  assert (Hb : forall x,
            String.eqb ((if negb (String.eqb (Scheme u) "") then Scheme u +:+ ":" else "") +:+
                        ("//" +:+ user +:+ escape (Host u) encodeHost) +:+ x) "" = false).
  { intros x. destruct (negb (String.eqb (Scheme u) "")); [|reflexivity].
    destruct (Scheme u); reflexivity. }
  rewrite !Hb. cbn [andb]. reflexivity.
Qed.

(** The Response of [Request] carries the rendering of the resolved URL. *)
Lemma Request_RequestURL (P : Platform) (c : RapidClient) (method urlPath : string)
    (body : option BodyValue) (params : Values) (w : World) (u : URL_t) (resp : Response) :
  url_Parse P (BaseURL c) = inl u ->
  snd (fst (Request P c method urlPath body params w)) = Return (Some resp, None) ->
  RequestURL resp = URL_String (resolve P u urlPath params).
Proof.
  intros Hu. rewrite Request_run.
  assert (Hb : BaseURL (fst (fst (ensureValidToken P c w))) = BaseURL c).
  { destruct (ensureValidToken_client P c w) as [-> | [tok ->]]; reflexivity. }
  destruct (ensureValidToken P c w) as [[c1 [[err|]|]] w1]; simpl in *;
    [discriminate| |discriminate].
  unfold dispatched. rewrite Hb, Hu.
  destruct (serialize body); [|discriminate].
  destruct (newRequest_err P (method_or_GET method) _); [discriminate|].
  destruct (Client_Token c1); [|discriminate].
  destruct (HTTPClient c1); [|discriminate].
  destruct (transport P (S (tick w1)) _); [|discriminate].
  simpl. intros [= <-]. reflexivity.
Qed.

(** C9, as stated, fails: with an empty request path, the base
    http://api.example.com resolves to itself and the base
    http://api.example.com/ keeps its slash. *)
Lemma RequestURL_trailing_slash_differs :
  let P := mock_platform "" 200 in
  let t := mkToken "mockAccessToken" 0 "Bearer" "" 3600000000000 in
  RequestURL_of (snd (fst (Request P (clientAt "http://api.example.com" t)
                             "GET" "" None ∅ world0)))
  = Some "http://api.example.com" /\
  RequestURL_of (snd (fst (Request P (clientAt "http://api.example.com/" t)
                             "GET" "" None ∅ world0)))
  = Some "http://api.example.com/".
Proof. vm_compute. split; reflexivity. Qed.

(** A base path with an encoded separator shows the same: behind the base
    http://api.example.com/a%2Fb the path hint is kept, behind the same base
    with a trailing slash it no longer decodes to the joined path. *)
Example RawPath_trailing_slash_differs :
  let P := mock_platform "" 200 in
  let u := mkURL "http" "" None "api.example.com" "/a/b" "/a%2Fb" false false "" "" "" in
  let u' := mkURL "http" "" None "api.example.com" "/a/b/" "/a%2Fb/" false false "" "" "" in
  URL_String (resolve P u "" ∅) = "http://api.example.com/a%2Fb" /\
  URL_String (resolve P u' "" ∅) = "http://api.example.com/a/b".
Proof. split; reflexivity. Qed.

(** C9 (amended): take a parsed base URL whose path has its default
    encoding (the field RawPath is empty) and a request path such that the
    base path is non-empty, or the request path begins with '/', or the base
    has a host and the cleaned request path is none of ".", ".." and "*" and
    does not begin with "../".  Then adding trailing slashes to the base path
    and leading slashes to the request path does not change the resolved URL.
    The joined path and the path of the rendered URL have no doubled
    separator; the Response of [Request] carries that rendered URL. *)
Theorem resolve_slash_variations (P : Platform) (u : URL_t) (q : string) (params : Values)
    (n m : nat) :
  RawPath u = "" ->
  Path u <> "" \/ starts_with_sep q = true \/
  (Host u <> "" /\ names_entry (filepath_Clean q)) ->
  let u' := set_Path u (Path u +:+ slashes n) in
  let q' := slashes m +:+ q in
  URL_String (resolve P u' q' params) = URL_String (resolve P u q params) /\
  has_doubled_sep (bytes (Path (resolve P u' q' params))) = false /\
  (URL_String (resolve P u' q' params) =
     URL_authority (resolve P u' q' params) +:+ URL_path (resolve P u' q' params) +:+
     URL_query (resolve P u' q' params) +:+ URL_fragment (resolve P u' q' params) /\
   has_doubled_sep (bytes (URL_path (resolve P u' q' params))) = false) /\
  (forall c method body w resp,
     url_Parse P (BaseURL c) = inl u' ->
     snd (fst (Request P c method q' body params w)) = Return (Some resp, None) ->
     RequestURL resp = URL_String (resolve P u' q' params)).
Proof.
  intros Hraw H u' q'.
  assert (Hj : has_doubled_sep (bytes (Path (resolve P u' q' params))) = false).
  { unfold resolve. destruct (0 <? size params)%nat; apply filepath_Join_no_doubled. }
  split; [|split; [exact Hj | split;
    [split; [apply URL_String_parts | now apply URL_path_no_doubled]|]]].
  2: { intros c method body w resp. apply Request_RequestURL. }
  assert (Hcore : forall v, RawPath v = "" -> Host v = Host u ->
            URL_String (set_Path v (filepath_Join [Path u +:+ slashes n; slashes m +:+ q])) =
            URL_String (set_Path v (filepath_Join [Path u; q]))).
  { intros v Hv Hhost. destruct (String.eqb (Path u) "") eqn:Hp.
    - apply String.eqb_eq in Hp. rewrite Hp. change ("" +:+ slashes n) with (slashes n).
      destruct H as [H | [H | [Hh He]]]; [congruence | |].
      + rewrite (filepath_Join_anchored q n m) by auto.
        now rewrite (filepath_Join_anchored q 0 0 (or_intror (or_intror H)) : filepath_Join [""; q] = _).
      + destruct (starts_with_sep q) eqn:Hs.
        { rewrite (filepath_Join_anchored q n m) by auto.
          now rewrite (filepath_Join_anchored q 0 0 (or_intror (or_intror Hs))
                       : filepath_Join [""; q] = _). }
        destruct (filepath_Clean_rooted_relative q Hs He) as (Hroot & Hne & Hrel).
        assert (Hq : String.eqb q "" = false).
        { destruct q; [|reflexivity]. exfalso. now apply (proj1 He). }
        rewrite (filepath_Join_empty_base q), Hq.
        destruct n as [|n], m as [|m].
        * change (slashes 0) with "". change ("" +:+ q) with q.
          now rewrite filepath_Join_empty_base, Hq.
        * rewrite filepath_Join_anchored by lia. rewrite Hroot. symmetry.
          apply URL_String_relative; try assumption; [congruence | apply He].
        * rewrite filepath_Join_anchored by lia. rewrite Hroot. symmetry.
          apply URL_String_relative; try assumption; [congruence | apply He].
        * rewrite filepath_Join_anchored by lia. rewrite Hroot. symmetry.
          apply URL_String_relative; try assumption; [congruence | apply He].
    - apply String.eqb_neq in Hp. now rewrite filepath_Join_variations. }
  unfold resolve, u', q'. cbn [Path set_Path].
  destruct (0 <? size params)%nat.
  - apply (Hcore (set_RawQuery u (Values_Encode P params)) Hraw eq_refl).
  - apply (Hcore u Hraw eq_refl).
Qed.

Lemma resolve_slash_variations_witness :
  let P := mock_platform "" 200 in
  (Host (plainURL "http" "api.example.com" "") <> "" /\
   names_entry (filepath_Clean "widgets")) /\
  URL_String (resolve P (plainURL "http" "api.example.com" "/") "/widgets" ∅)
  = URL_String (resolve P (plainURL "http" "api.example.com" "") "widgets" ∅) /\
  URL_String (resolve P (plainURL "http" "api.example.com" "") "widgets" ∅)
  = "http://api.example.com/widgets".
Proof.
  intros P.
  assert (H : Host (plainURL "http" "api.example.com" "") <> "" /\
              names_entry (filepath_Clean "widgets")).
  { split; [discriminate|]. vm_compute. repeat split; discriminate. }
  split; [exact H|]. split; [|reflexivity].
  exact (proj1 (resolve_slash_variations P (plainURL "http" "api.example.com" "")
                  "widgets" ∅ 1 1 eq_refl (or_intror (or_intror H)))).
Defined.

(** * Further properties *)

(** ** The credential exchange on the wire *)

Lemma exchange_answers_run (P : Platform) (c : RapidClient) (isRefresh : bool)
    (w : World) (tk : Token) :
  exchange_answers P c isRefresh w tk ->
  generateOrRefreshToken P c isRefresh w =
  ((set_Token c (stamped P tk (after_Do (TokenExchange isRefresh (tokenRequest P c isRefresh)) w)),
    Return None),
   after_Now (after_Do (TokenExchange isRefresh (tokenRequest P c isRefresh)) w)).
Proof.
  intros (Hc & Hn & resp & Ht & Hs & Hd).
  rewrite generateOrRefreshToken_run, Hn, Ht.
  destruct (HTTPClient c); [|contradiction]. simpl.
  apply Z.eqb_eq in Hs. now rewrite Hs, Hd.
Qed.

Lemma generateParameters_fresh_eq (c : RapidClient) :
  generateParameters c false = freshParameters c.
Proof.
  unfold generateParameters, freshParameters. now destruct (Client_Token c).
Qed.

(** X1: a credential exchange sends at most one request and never a target
    request.  The request is a POST to the base URL followed by /token; its
    only headers are Content-Type: application/x-www-form-urlencoded and
    Authorization: Basic base64(key:secret); its body is the encoded grant
    parameters.  Neither the held token nor the extra authorization value
    appears in it. *)
Theorem token_request_on_the_wire (P : Platform) (c : RapidClient) (isRefresh : bool)
    (w : World) :
  let ev := events_of (generateOrRefreshToken P c isRefresh) w in
  (ev = [] \/ ev = [TokenExchange isRefresh (tokenRequest P c isRefresh)]) /\
  (forall b req, In (TokenExchange b req) ev ->
     b = isRefresh /\
     Method req = "POST" /\
     URL req = BaseURL c +:+ "/token" /\
     ReqBody req = Some (Values_Encode P (generateParameters c isRefresh)) /\
     Header_of req !! "Content-Type" = Some ["application/x-www-form-urlencoded"] /\
     Header_of req !! "Authorization" =
       Some ["Basic " +:+ base64_EncodeToString P (Key c +:+ ":" +:+ Secret c)] /\
     (forall k, k <> "Content-Type" -> k <> "Authorization" -> Header_of req !! k = None)).
Proof.
  intros ev.
  assert (Hev : ev = [] \/ ev = [TokenExchange isRefresh (tokenRequest P c isRefresh)]).
  { subst ev.
    destruct (generateOrRefreshToken_trace P c isRefresh w) as [[_ H]|(_ & _ & H)];
      simpl in H.
    - left. apply events_of_app. now rewrite H, app_nil_r.
    - right. now apply events_of_app. }
  split; [exact Hev|].
  intros b req Hin.
  destruct Hev as [Hev | Hev]; rewrite Hev in Hin; [destruct Hin|].
  destruct Hin as [[= <- <-]|[]].
  unfold tokenRequest, Header_Set, authorizationHeader, contentTypeURLEncoded. simpl.
  repeat split; try (simplify_map_eq; reflexivity).
  intros k H1 H2. unfold Header.
  rewrite lookup_insert_ne by congruence. rewrite lookup_insert_ne by congruence.
  apply lookup_empty.
Qed.

(** ** The configuration never changes *)

Lemma same_config_refl (c : RapidClient) : same_config c c.
Proof. repeat split. Qed.

Lemma same_config_set_Token (c : RapidClient) (t : Token) : same_config c (set_Token c t).
Proof. repeat split. Qed.

Lemma same_config_trans (a b c : RapidClient) :
  same_config a b -> same_config b c -> same_config a c.
Proof.
  unfold same_config. intros (H1 & H2 & H3 & H4 & H5 & H6) (G1 & G2 & G3 & G4 & G5 & G6).
  repeat split; congruence.
Qed.

Lemma Request_client (P : Platform) c method urlPath body params w :
  let c' := fst (fst (Request P c method urlPath body params w)) in
  c' = c \/ exists tok, c' = set_Token c tok.
Proof.
  rewrite Request_run.
  pose proof (ensureValidToken_client P c w) as Hc.
  destruct (ensureValidToken P c w) as [[c1 [[err|]|]] w1]; simpl in *;
    [exact Hc| |exact Hc].
  rewrite dispatched_client. exact Hc.
Qed.

Lemma run_op_config (P : Platform) (o : Op) (c : RapidClient) (w : World) :
  same_config c (fst (run_op P o c w)).
Proof.
  assert (H : fst (run_op P o c w) = c \/ exists tok, fst (run_op P o c w) = set_Token c tok).
  { assert (Hg : forall b, fst (fst (generateOrRefreshToken P c b w)) = c \/
                             exists tok, fst (fst (generateOrRefreshToken P c b w)) = set_Token c tok).
    { intros b. destruct (generateOrRefreshToken_client P c b w) as [[_ H]|[_ H]];
        [left; exact H | right; exact H]. }
    destruct o; simpl; try apply Request_client; apply Hg. }
  destruct H as [-> | [tok ->]];
    [apply same_config_refl | apply same_config_set_Token].
Qed.

Lemma tokenRequest_config (P : Platform) (c c' : RapidClient) (b b' : bool) :
  same_config c c' ->
  URL (tokenRequest P c' b') = URL (tokenRequest P c b) /\
  Header_of (tokenRequest P c' b') = Header_of (tokenRequest P c b).
Proof.
  intros (H1 & H2 & H3 & _). unfold tokenRequest. simpl. now rewrite H1, H2, H3.
Qed.

(** The token requests of one operation are those of the client it runs on. *)
Lemma run_op_token_requests (P : Platform) (o : Op) (c : RapidClient) (w : World) :
  exists l, trace (snd (run_op P o c w)) = trace w ++ l /\
    forall b req, In (TokenExchange b req) l -> req = tokenRequest P c b.
Proof.
  assert (Hgen : forall b, exists l,
            trace (snd (generateOrRefreshToken P c b w)) = trace w ++ l /\
            forall b' req, In (TokenExchange b' req) l -> req = tokenRequest P c b').
  { intros b. destruct (generateOrRefreshToken_trace P c b w) as [[_ H]|(_ & _ & H)];
      simpl in H.
    - exists []. rewrite H, app_nil_r. split; [reflexivity | intros ? ? []].
    - eexists. split; [exact H|]. intros b' req [[= <- <-]|[]]. reflexivity. }
  assert (Hreq : forall method urlPath body params, exists l,
            trace (snd (Request P c method urlPath body params w)) = trace w ++ l /\
            forall b' req, In (TokenExchange b' req) l -> req = tokenRequest P c b').
  { intros method urlPath body params.
    destruct (Request_trace P c method urlPath body params w)
      as (pre & post & Ht & Hpre & Hpost).
    exists (pre ++ post). split; [exact Ht|].
    intros b' req Hin. apply in_app_or in Hin. destruct Hin as [Hin|Hin].
    - destruct Hpre as [-> | ->]; [destruct Hin|].
      destruct Hin as [[= <- <-]|[]]. reflexivity.
    - destruct Hpost as [-> | [r ->]]; [destruct Hin|].
      destruct Hin as [Hin|[]]. discriminate. }
  destruct o; simpl; try apply Hgen; apply Hreq.
Qed.

(** X2: over any sequence of operations on a client, every field but the
    held token stays what it was (base URL, key, secret, user assertion,
    transport settings, extra authorization value), and every token request
    sent along the way goes to the same URL with the same headers, hence the
    same Basic credentials. *)
Theorem run_ops_keeps_config (P : Platform) (ops : list Op) (c : RapidClient) (w : World) :
  let r := run_ops P ops c w in
  same_config c (fst r) /\
  forall b req, In (TokenExchange b req) (skipn (length (trace w)) (trace (snd r))) ->
    URL req = URL (tokenRequest P c b) /\
    Header_of req = Header_of (tokenRequest P c b).
Proof.
  cbv zeta.
  assert (H : same_config c (fst (run_ops P ops c w)) /\
              exists l, trace (snd (run_ops P ops c w)) = trace w ++ l /\
                forall b req, In (TokenExchange b req) l ->
                  URL req = URL (tokenRequest P c b) /\
                  Header_of req = Header_of (tokenRequest P c b)).
  { revert c w. induction ops as [|o ops IH]; intros c w; simpl.
    - split; [apply same_config_refl|]. exists []. rewrite app_nil_r.
      split; [reflexivity | intros ? ? []].
    - pose proof (run_op_config P o c w) as Hc.
      destruct (run_op_token_requests P o c w) as (l1 & Ht1 & Hl1).
      destruct (run_op P o c w) as [c' w']. simpl in Hc, Ht1.
      destruct (IH c' w') as (Hc' & l2 & Ht2 & Hl2).
      split; [exact (same_config_trans _ _ _ Hc Hc')|].
      exists (l1 ++ l2). split; [now rewrite Ht2, Ht1, app_assoc|].
      intros b req Hin. apply in_app_or in Hin. destruct Hin as [Hin|Hin].
      + rewrite (Hl1 b req Hin). split; reflexivity.
      + destruct (Hl2 b req Hin) as [Hu Hh].
        destruct (tokenRequest_config P c c' b b Hc) as [Gu Gh].
        split; [exact (eq_trans Hu Gu) | exact (eq_trans Hh Gh)]. }
  destruct H as (Hc & l & Ht & Hl). split; [exact Hc|].
  intros b req Hin. rewrite Ht, skipn_length_app in Hin. now apply Hl.
Qed.

(** ** A server-issued token at dispatch *)

Lemma Request_valid_events (P : Platform) c method urlPath body params w :
  held_token_valid P c w = true ->
  fst (fst (Request P c method urlPath body params w)) = c /\
  (events_of (Request P c method urlPath body params) w = [] \/
   exists req, events_of (Request P c method urlPath body params) w = [Dispatch req]).
Proof.
  intros Hv.
  assert (Hrun := Request_run P c method urlPath body params w).
  rewrite (ensureValidToken_valid _ _ _ Hv) in Hrun. simpl in Hrun.
  rewrite Hrun, dispatched_client. split; [reflexivity|].
  destruct (dispatched_trace P c method urlPath body params (after_Now w))
    as [Ht | (u & rb & t & _ & _ & _ & Ht)]; simpl in Ht.
  - left. apply events_of_app. rewrite Hrun, Ht. now rewrite app_nil_r.
  - right. eexists. apply events_of_app. rewrite Hrun. exact Ht.
Qed.

Lemma Request_invalid_events (P : Platform) c method urlPath body params w :
  held_token_valid P c w = false ->
  HTTPClient c <> None ->
  newRequest_err P "POST" (BaseURL c +:+ tokenEndpoint) = None ->
  exists rest,
    events_of (Request P c method urlPath body params) w =
    TokenExchange false (tokenRequest P c false) :: rest.
Proof.
  intros Hv Hc Hn.
  destruct (Request_trace P c method urlPath body params w)
    as (pre & post & Ht & Hpre & Hpost).
  assert (Hpre' : pre = [TokenExchange false (tokenRequest P c false)]).
  { destruct Hpre as [-> | ->]; [|reflexivity]. exfalso.
    assert (He : trace (snd (ensureValidToken P c w)) =
                 trace w ++ [TokenExchange false (tokenRequest P c false)]).
    { rewrite (ensureValidToken_invalid _ _ _ Hv).
      assert (Hw : trace (after_check c w) = trace w).
      { unfold after_check. now destruct (Client_Token c). }
      destruct (generateOrRefreshToken_trace P c false (after_check c w))
        as [[[Hne|Hne] _]|(_ & _ & H)]; [contradiction | contradiction |].
      simpl in H. now rewrite H, Hw. }
    rewrite Request_run in Ht.
    destruct (ensureValidToken P c w) as [[c1 [[err|]|]] w1]; simpl in *.
    - rewrite He in Ht. apply app_inv_head in Ht.
      destruct Hpost as [-> | [r ->]]; discriminate.
    - destruct (dispatched_trace P c1 method urlPath body params w1)
        as [Hd | (u & rb & t & _ & _ & _ & Hd)]; simpl in Hd;
        rewrite Hd, He in Ht.
      + apply app_inv_head in Ht. destruct Hpost as [-> | [r ->]]; discriminate.
      + rewrite <- app_assoc in Ht. apply app_inv_head in Ht.
        destruct Hpost as [-> | [r ->]]; discriminate.
    - rewrite He in Ht. apply app_inv_head in Ht.
      destruct Hpost as [-> | [r ->]]; discriminate. }
  subst pre. exists post. apply events_of_app. exact Ht.
Qed.

(** X3: a token stored by a status-200 exchange whose expires_in [N] fits in a
    Duration is used by every later [Request] that starts while the clock
    reads before the parse time plus [N] seconds: such a request leaves the
    client as it is and sends no token request.  A [Request] that starts at or
    after that instant sends a fresh token request first. *)
Theorem Request_reuses_token_until_expiry (P : Platform) (c : RapidClient)
    (isRefresh : bool) (w : World) (tk : Token) (method urlPath : string)
    (body : option BodyValue) (params : Values) (w2 : World) :
  exchange_answers P c isRefresh w tk ->
  in_int64 (ExpiresIn tk * 1000000000) ->
  let c' := fst (fst (generateOrRefreshToken P c isRefresh w)) in
  let expiry := clock P (S (tick w)) + ExpiresIn tk * 1000000000 in
  let ev := events_of (Request P c' method urlPath body params) w2 in
  (clock P (tick w2) < expiry ->
     fst (fst (Request P c' method urlPath body params w2)) = c' /\
     (ev = [] \/ exists req, ev = [Dispatch req])) /\
  (expiry <= clock P (tick w2) ->
     exists rest, ev = TokenExchange false (tokenRequest P c' false) :: rest).
Proof.
  intros Hx Hfit c' expiry ev. subst c' ev.
  rewrite (exchange_answers_run _ _ _ _ _ Hx). cbn [fst].
  set (c' := set_Token c _).
  assert (Hv : held_token_valid P c' w2 = (clock P (tick w2) <? expiry)).
  { unfold held_token_valid, c', IsValid, bind, time_Now, ret, stamped, Time_Before, Time_Add.
    simpl. now rewrite lifetime_exact. }
  split.
  - intros Hlt. apply Request_valid_events. rewrite Hv. now apply Z.ltb_lt.
  - intros Hge. apply Request_invalid_events.
    + rewrite Hv. now apply Z.ltb_ge.
    + apply Hx.
    + apply Hx.
Qed.

Lemma Request_reuses_token_until_expiry_witness :
  let P := mock_platform "http://mockapi.com" 200 in
  let c' := fst (fst (GenerateToken P mockClient world0)) in
  fst (fst (Request P c' "GET" "/mock-endpoint" None ∅ (mkWorld 10 []))) = c' /\
  exists rest,
    events_of (Request P c' "GET" "/mock-endpoint" None ∅) (mkWorld 3601 []) =
    TokenExchange false (tokenRequest P c' false) :: rest.
Proof.
  intros P c'.
  assert (Hx : exchange_answers P mockClient false world0 mockToken).
  { split; [discriminate|]. split; [reflexivity|]. eexists. repeat split. }
  assert (Hfit : in_int64 (ExpiresIn mockToken * 1000000000)).
  { unfold in_int64. simpl. lia. }
  split.
  - refine (proj1 (proj1 (Request_reuses_token_until_expiry P mockClient false world0
              mockToken "GET" "/mock-endpoint" None ∅ (mkWorld 10 []) Hx Hfit) _)).
    vm_compute. reflexivity.
  - refine (proj2 (Request_reuses_token_until_expiry P mockClient false world0
              mockToken "GET" "/mock-endpoint" None ∅ (mkWorld 3601 []) Hx Hfit) _).
    vm_compute. discriminate.
Defined.

(** X4: the bearer header is the server's answer verbatim.  While the token
    stored by a status-200 exchange is valid, every target request of
    [Request] carries Authorization: token_type, a space, access_token, with
    the token_type exactly as the server sent it (it is not defaulted to
    Bearer, and an absent token_type leaves a leading space). *)
Theorem Request_bearer_from_exchange (P : Platform) (c : RapidClient)
    (isRefresh : bool) (w : World) (tk : Token) (method urlPath : string)
    (body : option BodyValue) (params : Values) (w2 : World) (req : HTTPRequest) :
  exchange_answers P c isRefresh w tk ->
  let c' := fst (fst (generateOrRefreshToken P c isRefresh w)) in
  held_token_valid P c' w2 = true ->
  In (Dispatch req) (events_of (Request P c' method urlPath body params) w2) ->
  Header_of req !! "Authorization" = Some [TokenType tk +:+ " " +:+ Value tk] /\
  (TokenType tk = "" ->
   Header_of req !! "Authorization" = Some [String " " (Value tk)]).
Proof.
  intros Hx c' Hv Hin.
  destruct (Request_dispatch_event P c' method urlPath body params w2 req Hin)
    as (_ & u & rb & t & _ & _ & Ht & ->).
  destruct (Request_valid_events P c' method urlPath body params w2 Hv) as [Hc _].
  set (c1 := fst (fst (Request P c' method urlPath body params w2))) in *.
  destruct (set_headers_lookup c1 t body
              (mkHTTPRequest (method_or_GET method) (URL_String (resolve P u urlPath params)) ∅ rb) eq_refl)
    as (_ & _ & Hau & _).
  assert (Htk : t = stamped P tk
                      (after_Do (TokenExchange isRefresh (tokenRequest P c isRefresh)) w)).
  { rewrite Hc in Ht. subst c'.
    rewrite (exchange_answers_run _ _ _ _ _ Hx) in Ht. simpl in Ht. congruence. }
  assert (Hval : Header_of (targetRequest P c1 t u method urlPath body rb params)
                   !! "Authorization" = Some [TokenType tk +:+ " " +:+ Value tk]).
  { etransitivity; [exact Hau|]. now rewrite Htk. }
  split; [exact Hval|]. intros Hty. etransitivity; [exact Hval|]. now rewrite Hty.
Qed.

Lemma Request_bearer_from_exchange_witness :
  let P := mock_platform "http://mockapi.com" 200 in
  let c' := fst (fst (GenerateToken P mockClient world0)) in
  exists req,
    In (Dispatch req) (events_of (Request P c' "GET" "/mock-endpoint" None ∅) (mkWorld 10 [])) /\
    Header_of req !! "Authorization" = Some ["Bearer mockAccessToken"].
Proof.
  intros P c'.
  assert (Hx : exchange_answers P mockClient false world0 mockToken).
  { split; [discriminate|]. split; [reflexivity|]. eexists. repeat split. }
  eexists. 
  assert (Hin : In (Dispatch (mkHTTPRequest "GET" "http://mockapi.com/mock-endpoint"
                   {[ "Accept" := ["application/json"];
                      "Authorization" := ["Bearer mockAccessToken"] ]} None))
                  (events_of (Request P c' "GET" "/mock-endpoint" None ∅) (mkWorld 10 []))).
  { left. vm_compute. reflexivity. }
  split; [exact Hin|].
  refine (proj1 (Request_bearer_from_exchange P mockClient false world0 mockToken
            "GET" "/mock-endpoint" None ∅ (mkWorld 10 []) _ Hx _ Hin)).
  vm_compute. reflexivity.
Defined.

(** ** Refresh and fresh generation *)

(** X5: what an explicit RefreshToken sends after a status-200 exchange.  If
    the server's answer carried a refresh value, the refresh request is the
    refresh_token grant with exactly that value; if it carried none, the
    refresh request falls back to the grant of a fresh generation
    (JWT-bearer with the configured assertion, else client_credentials). *)
Theorem RefreshToken_after_exchange (P : Platform) (c : RapidClient) (isRefresh : bool)
    (w : World) (tk : Token) (w2 : World) :
  exchange_answers P c isRefresh w tk ->
  let c' := fst (fst (generateOrRefreshToken P c isRefresh w)) in
  let params : Values :=
    if nonempty (Token_RefreshToken tk) then
      {[ "grant_type" := ["refresh_token"]; "refresh_token" := [Token_RefreshToken tk] ]}
    else freshParameters c in
  events_of (RefreshToken P c') w2 = [TokenExchange true (tokenRequest P c' true)] /\
  ReqBody (tokenRequest P c' true) = Some (Values_Encode P params) /\
  URL (tokenRequest P c' true) = BaseURL c +:+ "/token".
Proof.
  intros Hx c' params. subst c' params.
  rewrite (exchange_answers_run _ _ _ _ _ Hx). cbn [fst].
  set (c' := set_Token c _).
  split; [|split; [|reflexivity]].
  - apply events_of_app. unfold RefreshToken.
    destruct (generateOrRefreshToken_trace P c' true w2) as [[[Hne|Hne] _]|(_ & _ & H)];
      [exfalso; apply Hne; apply Hx | exfalso; now apply (proj1 Hx) | exact H].
  - unfold tokenRequest, generateParameters, freshParameters, c', stamped. simpl.
    now destruct (nonempty (Token_RefreshToken tk)).
Qed.

Lemma RefreshToken_after_exchange_witness :
  let P := mock_platform "http://mockapi.com" 200 in
  let c' := fst (fst (GenerateToken P mockClient world0)) in
  ReqBody (tokenRequest P c' true) =
  Some (Values_Encode P
          {[ "grant_type" := ["refresh_token"]; "refresh_token" := ["mockRefreshToken"] ]}).
Proof.
  intros P c'.
  assert (Hx : exchange_answers P mockClient false world0 mockToken).
  { split; [discriminate|]. split; [reflexivity|]. eexists. repeat split. }
  exact (proj1 (proj2 (RefreshToken_after_exchange P mockClient false world0 mockToken
                         world0 Hx))).
Defined.

(** X6: the token request that [Request] sends on its own is never a refresh.
    Whatever token is held, even one with a refresh value, the request is sent
    only when the validity check fails, carries the flag of a fresh
    generation, and its parameters have no refresh_token key: the grant type
    is JWT-bearer when a user assertion is configured and client_credentials
    otherwise. *)
Theorem Request_never_sends_refresh_grant (P : Platform) (c : RapidClient)
    (method urlPath : string) (body : option BodyValue) (params : Values) (w : World)
    (b : bool) (req : HTTPRequest) :
  In (TokenExchange b req) (events_of (Request P c method urlPath body params) w) ->
  b = false /\
  held_token_valid P c w = false /\
  ReqBody req = Some (Values_Encode P (freshParameters c)) /\
  freshParameters c !! "refresh_token" = None /\
  freshParameters c !! "grant_type" =
    Some [if nonempty (UserWebToken c)
          then "urn:ietf:params:oauth:grant-type:jwt-bearer"
          else "client_credentials"].
Proof.
  intros Hin.
  assert (Hv : held_token_valid P c w = false).
  { destruct (held_token_valid P c w) eqn:Hv; [exfalso | reflexivity].
    destruct (Request_valid_events P c method urlPath body params w Hv) as [_ [He | [r He]]];
      rewrite He in Hin.
    - destruct Hin.
    - destruct Hin as [Hin | []]. discriminate. }
  destruct (Request_trace P c method urlPath body params w)
    as (pre & post & Ht & Hpre & Hpost).
  rewrite (events_of_app _ _ _ Ht) in Hin. apply in_app_or in Hin.
  assert (Hreq : b = false /\ req = tokenRequest P c false).
  { destruct Hin as [Hin | Hin].
    - destruct Hpre as [-> | ->]; [destruct Hin|].
      destruct Hin as [[= <- <-] | []]. split; reflexivity.
    - destruct Hpost as [-> | [r ->]]; [destruct Hin|].
      destruct Hin as [Hin | []]. discriminate. }
  destruct Hreq as [-> ->].
  split; [reflexivity|]. split; [exact Hv|]. split.
  - unfold tokenRequest. simpl. now rewrite generateParameters_fresh_eq.
  - unfold freshParameters, jwtBearerGrant, clientCredentialsGrant.
    destruct (nonempty (UserWebToken c)); split; reflexivity.
Qed.

Lemma Request_never_sends_refresh_grant_witness :
  let P := mock_platform "http://mockapi.com" 200 in
  let c := heldClient (mkToken "old" 3600 "Bearer" "oldRefresh" 0) in
  In (TokenExchange false (tokenRequest P c false))
     (events_of (Request P c "GET" "/mock-endpoint" None ∅) world0) /\
  ReqBody (tokenRequest P c false) = Some (Values_Encode P (freshParameters c)).
Proof.
  intros P c.
  assert (Hin : In (TokenExchange false (tokenRequest P c false))
                  (events_of (Request P c "GET" "/mock-endpoint" None ∅) world0)).
  { left. vm_compute. reflexivity. }
  split; [exact Hin|].
  exact (proj1 (proj2 (proj2 (Request_never_sends_refresh_grant P c "GET" "/mock-endpoint"
                                None ∅ world0 false _ Hin)))).
Defined.

(** ** Errors of the token step, seen by the caller of Request *)

Lemma generateOrRefreshToken_error_kind (P : Platform) c isRefresh w e :
  snd (fst (generateOrRefreshToken P c isRefresh w)) = Return (Some e) ->
  fst (fst (generateOrRefreshToken P c isRefresh w)) = c /\
  ((exists e0, e = Errorf_w_v ErrTokenGeneration e0) \/
   (exists d, d <> 200 /\ e = Errorf_w_d ErrUnexpectedStatus d)).
Proof.
  exchange_cases P c isRefresh w; intros [= <-]; (split; [reflexivity|]);
    try (left; eexists; reflexivity).
  right. eexists. split; [|reflexivity]. apply Z.eqb_neq. assumption.
Qed.

(** X7: when the token step of [Request] fails, the caller gets no Response,
    nothing is sent to the target, the client is left as it was, and the
    returned error still unwraps to the package's sentinels: errors.Is finds
    ErrUnexpectedStatus when the token endpoint answered with a status other
    than 200, and ErrTokenGeneration for every other failure of the exchange.
    A rejected exchange (non-200) is not an ErrTokenGeneration. *)
Theorem Request_token_failure (P : Platform) (c : RapidClient) (method urlPath : string)
    (body : option BodyValue) (params : Values) (w : World) (e0 : error) :
  snd (fst (ensureValidToken P c w)) = Return (Some e0) ->
  let r := Request P c method urlPath body params w in
  let e := Errorf_s_w "error ensuring valid token" e0 in
  fst r = (c, Return (None, Some e)) /\
  (forall req, ~ In (Dispatch req) (events_of (Request P c method urlPath body params) w)) /\
  ((exists e1, e0 = Errorf_w_v ErrTokenGeneration e1 /\
               errors_Is e ErrTokenGeneration = true) \/
   (exists d, d <> 200 /\ e0 = Errorf_w_d ErrUnexpectedStatus d /\
              errors_Is e ErrUnexpectedStatus = true /\
              errors_Is e ErrTokenGeneration = false)).
Proof.
  intros He r e. subst r e.
  assert (Hv : held_token_valid P c w = false).
  { destruct (held_token_valid P c w) eqn:Hv; [|reflexivity].
    rewrite (ensureValidToken_valid _ _ _ Hv) in He. discriminate. }
  pose proof (ensureValidToken_invalid _ _ _ Hv) as Hinv.
  rewrite Hinv in He.
  destruct (generateOrRefreshToken_error_kind P c false _ e0 He) as [Hc Hkind].
  assert (Hrun := Request_run P c method urlPath body params w).
  rewrite Hinv in Hrun.
  assert (Htr : trace (snd (Request P c method urlPath body params w)) =
                trace (snd (generateOrRefreshToken P c false (after_check c w)))).
  { rewrite Hrun.
    destruct (generateOrRefreshToken P c false (after_check c w)) as [[c1 err] w1].
    simpl in He. subst err. reflexivity. }
  split; [|split].
  - rewrite Hrun.
    destruct (generateOrRefreshToken P c false (after_check c w)) as [[c1 err] w1].
    simpl in He, Hc. subst err c1. reflexivity.
  - intros req Hin. unfold events_of in Hin. rewrite Htr in Hin.
    assert (Hw : trace (after_check c w) = trace w).
    { unfold after_check. now destruct (Client_Token c). }
    destruct (generateOrRefreshToken_trace P c false (after_check c w))
      as [[_ H]|(_ & _ & H)]; simpl in H.
    + rewrite H, Hw, skipn_all in Hin. destruct Hin.
    + rewrite H, Hw, skipn_length_app in Hin. destruct Hin as [Hin|[]]. discriminate.
  - destruct Hkind as [[e1 ->] | (d & Hd & ->)].
    + left. exists e1. split; reflexivity.
    + right. exists d. repeat split. exact Hd.
Qed.

Lemma Request_token_failure_witness :
  let P := mock_platform "http://mockapi.com" 401 in
  fst (Request P mockClient "GET" "/mock-endpoint" None ∅ world0)
  = (mockClient,
     Return (None, Some (Errorf_s_w "error ensuring valid token"
                           (Errorf_w_d ErrUnexpectedStatus 401)))).
Proof.
  intros P.
  refine (proj1 (Request_token_failure P mockClient "GET" "/mock-endpoint" None ∅ world0
                   (Errorf_w_d ErrUnexpectedStatus 401) _)).
  vm_compute. reflexivity.
Defined.

(** ** A freshly constructed client *)

Lemma trim_left_all_sep (n : nat) : trim_left ["/"%char] (repeat "/"%char n) = [].
Proof. induction n as [|n IH]; [reflexivity | exact IH]. Qed.

Lemma TrimRight_slashes (n : nat) : strings_TrimRight (slashes n) "/" = "".
Proof.
  unfold strings_TrimRight. rewrite slashes_bytes, rev_repeat_same.
  change (bytes "/") with ["/"%char]. now rewrite trim_left_all_sep.
Qed.

(** X8: a client constructed by NewRapidClient holds no token, has no extra
    authorization value, takes key, secret and user assertion from the
    environment and a transport timeout of 600 s.  So its first [Request]
    never finds a valid token: it starts with a fresh token request (whenever
    that request can be built), and no target request of it carries
    X-Authorization. *)
Theorem NewRapidClient_first_request (P : Platform) (w w0 w1 : World) (c : RapidClient)
    (method urlPath : string) (body : option BodyValue) (params : Values) :
  NewRapidClient P w = ((Some c, None), w0) ->
  let ev := events_of (Request P c method urlPath body params) w1 in
  Client_Token c = None /\ XAuthorization c = "" /\
  Key c = os_Getenv P "RAPID_KEY" /\ Secret c = os_Getenv P "RAPID_SECRET" /\
  UserWebToken c = os_Getenv P "RAPID_USER_WEB_TOKEN" /\
  HTTPClient c = Some (mkHTTPClient (600 * 1000000000)) /\
  held_token_valid P c w1 = false /\
  (newRequest_err P "POST" (BaseURL c +:+ tokenEndpoint) = None ->
   exists rest, ev = TokenExchange false (tokenRequest P c false) :: rest) /\
  (forall req, In (Dispatch req) ev -> Header_of req !! "X-Authorization" = None).
Proof.
  intros Hnew ev. subst ev.
  assert (Hc : c = mkRapidClient (strings_TrimRight (os_Getenv P "RAPID_BASE_URL") "/")
                     (os_Getenv P "RAPID_KEY") (os_Getenv P "RAPID_SECRET")
                     (os_Getenv P "RAPID_USER_WEB_TOKEN") (Some (mkHTTPClient defaultTimeout))
                     None "").
  { unfold NewRapidClient in Hnew.
    destruct (String.eqb (os_Getenv P "RAPID_BASE_URL") "" ||
              String.eqb (os_Getenv P "RAPID_KEY") "" ||
              String.eqb (os_Getenv P "RAPID_SECRET") ""); [discriminate|].
    unfold ret in Hnew. now injection Hnew as <- _. }
  assert (Hv : held_token_valid P c w1 = false) by now rewrite Hc.
  repeat split; try (rewrite Hc; reflexivity).
  - intros Hn. apply Request_invalid_events; [exact Hv | now rewrite Hc | exact Hn].
  - intros req Hin.
    destruct (Request_dispatch_event P c method urlPath body params w1 req Hin)
      as (Hc1 & u & rb & t & _ & _ & _ & ->).
    set (c1 := fst (fst (Request P c method urlPath body params w1))) in *.
    assert (Hx : XAuthorization c1 = "").
    { rewrite Hc1. destruct (ensureValidToken_client P c w1) as [-> | [tok ->]];
        rewrite Hc; reflexivity. }
    destruct (set_headers_lookup c1 t body
                (mkHTTPRequest (method_or_GET method) (URL_String (resolve P u urlPath params)) ∅ rb) eq_refl)
      as (_ & Hxa & _).
    rewrite Hx in Hxa. exact Hxa.
Qed.

Lemma NewRapidClient_first_request_witness :
  let P := mock_platform "http://mockapi.com" 200 in
  let c := mkRapidClient "http://mockapi.com" "mockKey" "mockSecret" ""
             (Some (mkHTTPClient defaultTimeout)) None "" in
  NewRapidClient P world0 = ((Some c, None), world0) /\
  exists rest,
    events_of (Request P c "GET" "/mock-endpoint" None ∅) world0 =
    TokenExchange false (tokenRequest P c false) :: rest.
Proof.
  intros P c.
  assert (Hnew : NewRapidClient P world0 = ((Some c, None), world0)) by reflexivity.
  split; [exact Hnew|].
  refine (proj1 (proj2 (proj2 (proj2 (proj2 (proj2 (proj2 (proj2
            (NewRapidClient_first_request P world0 world0 world0 c "GET" "/mock-endpoint"
               None ∅ Hnew)))))))) _).
  reflexivity.
Defined.

(** X9: the configuration check looks at the raw value, the trimming comes
    after it.  A base URL made only of '/' characters, with key and secret
    present, is accepted: the client is constructed with the empty base URL,
    and its token requests go to the host-less URL /token. *)
Theorem NewRapidClient_all_slashes (P : Platform) (w : World) (n : nat) :
  os_Getenv P "RAPID_BASE_URL" = slashes (S n) ->
  os_Getenv P "RAPID_KEY" <> "" -> os_Getenv P "RAPID_SECRET" <> "" ->
  exists c, NewRapidClient P w = ((Some c, None), w) /\
            BaseURL c = "" /\
            forall b, URL (tokenRequest P c b) = "/token".
Proof.
  intros Hb Hk Hs. unfold NewRapidClient. rewrite Hb.
  apply String.eqb_neq in Hk, Hs. rewrite Hk, Hs.
  change (String.eqb (slashes (S n)) "") with false. cbn [orb].
  eexists. split; [reflexivity|]. cbn [BaseURL]. rewrite TrimRight_slashes.
  split; reflexivity.
Qed.

Lemma NewRapidClient_all_slashes_witness :
  exists c, NewRapidClient (mock_platform "//" 200) world0 = ((Some c, None), world0) /\
            BaseURL c = "".
Proof.
  destruct (NewRapidClient_all_slashes (mock_platform "//" 200) world0 1 eq_refl)
    as (c & Hc & Hb & _).
  - discriminate.
  - discriminate.
  - exists c. split; assumption.
Defined.

(** ** What goes out with a target request *)

Lemma set_headers_keeps (c : RapidClient) (t : Token) (body : option BodyValue)
    (req : HTTPRequest) :
  Method (set_headers c t body req) = Method req /\
  URL (set_headers c t body req) = URL req /\
  ReqBody (set_headers c t body req) = ReqBody req.
Proof.
  unfold set_headers, req_Header_Set.
  destruct body, (nonempty (XAuthorization c)); repeat split.
Qed.

(** Method, payload and URL of a target request. *)
Lemma Request_dispatch_needs_payload (P : Platform) c method urlPath body params w req :
  In (Dispatch req) (events_of (Request P c method urlPath body params) w) ->
  Method req = method_or_GET method /\ serialize body = inl (ReqBody req) /\
  exists u, url_Parse P (BaseURL c) = inl u /\
            URL req = URL_String (resolve P u urlPath params).
Proof.
  intros Hin.
  destruct (Request_dispatch_event P c method urlPath body params w req Hin)
    as (_ & u & rb & t & Hu & Hs & _ & ->).
  rewrite Request_BaseURL in Hu.
  unfold targetRequest.
  destruct (set_headers_keeps (fst (fst (Request P c method urlPath body params w))) t body
              (mkHTTPRequest (method_or_GET method) (URL_String (resolve P u urlPath params)) ∅ rb))
    as (Hm & Hurl & Hb).
  rewrite Hm, Hurl, Hb. simpl. split; [reflexivity|]. split; [exact Hs|].
  exists u. split; [exact Hu | reflexivity].
Qed.

(** X10: the payload of a target request.  Every target request of [Request]
    has the given method, GET when the given method is empty (the default of
    http.NewRequest), and carries the serialized body: nothing for a nil
    body, the bytes of the body's own RapidJson when it implements JSONBody
    (json.Marshal is then not consulted), the bytes of json.Marshal
    otherwise.  When the serializer fails, a failing RapidJson included,
    no target request is sent. *)
Theorem Request_payload (P : Platform) (c : RapidClient) (method urlPath : string)
    (body : option BodyValue) (params : Values) (w : World) :
  let ev := events_of (Request P c method urlPath body params) w in
  (forall req, In (Dispatch req) ev ->
     Method req = (if String.eqb method "" then "GET" else method) /\
     match body with
     | None => ReqBody req = None
     | Some b =>
         exists buf, ReqBody req = Some buf /\
           match RapidJson b with
           | Some r => r = inl buf
           | None => json_Marshal b = inl buf
           end
     end) /\
  (forall b e, body = Some b ->
     match RapidJson b with Some r => r | None => json_Marshal b end = inr e ->
     forall req, ~ In (Dispatch req) ev).
Proof.
  intros ev. subst ev. split.
  - intros req Hin.
    destruct (Request_dispatch_needs_payload P c method urlPath body params w req Hin)
      as (Hm & Hs & _).
    split; [exact Hm|].
    destruct body as [b|]; simpl in Hs.
    + destruct (RapidJson b) as [[buf|e]|]; try discriminate.
      * injection Hs as <-. eauto.
      * destruct (json_Marshal b) as [buf|e]; [|discriminate].
        injection Hs as <-. eauto.
    + now injection Hs as <-.
  - intros b e -> He req Hin.
    destruct (Request_dispatch_needs_payload P c method urlPath (Some b) params w req Hin)
      as (_ & Hs & _).
    simpl in Hs. rewrite He in Hs. discriminate.
Qed.

(** X11: the convenience wrappers.  A target request of Get is a GET without
    payload and one of Delete a DELETE without payload; one of Post is a POST
    and one of Put a PUT, each with the serialized body as payload.  Post, Put
    and Delete pass no query parameters: their URL is the base URL joined with
    the path, with the query of the base URL itself. *)
Theorem wrappers_dispatch (P : Platform) (c : RapidClient) (urlPath : string)
    (params : Values) (body : option BodyValue) (w : World) (req : HTTPRequest) :
  (In (Dispatch req) (events_of (Get P c urlPath params) w) ->
     Method req = "GET" /\ ReqBody req = None) /\
  (In (Dispatch req) (events_of (Delete P c urlPath) w) ->
     Method req = "DELETE" /\ ReqBody req = None /\
     exists u, url_Parse P (BaseURL c) = inl u /\
       URL req = URL_String (set_Path u (filepath_Join [Path u; urlPath]))) /\
  (In (Dispatch req) (events_of (Post P c urlPath body) w) ->
     Method req = "POST" /\ serialize body = inl (ReqBody req) /\
     exists u, url_Parse P (BaseURL c) = inl u /\
       URL req = URL_String (set_Path u (filepath_Join [Path u; urlPath]))) /\
  (In (Dispatch req) (events_of (Put P c urlPath body) w) ->
     Method req = "PUT" /\ serialize body = inl (ReqBody req) /\
     exists u, url_Parse P (BaseURL c) = inl u /\
       URL req = URL_String (set_Path u (filepath_Join [Path u; urlPath]))).
Proof.
  unfold Get, Delete, Post, Put. repeat split;
    match goal with
    | H : In (Dispatch req) (events_of (Request P c ?m urlPath ?b ?q) w) |- _ =>
        destruct (Request_dispatch_needs_payload P c m urlPath b q w req H)
          as (Hm & Hs & u & Hu & Hurl)
    end; try exact Hm; try exact Hs;
    try (simpl in Hs; now injection Hs as <-);
    exists u; (split; [exact Hu | exact Hurl]).
Qed.

Lemma wrappers_dispatch_witness :
  let P := mock_platform "http://mockapi.com" 200 in
  let c := heldClient (mkToken "mockAccessToken" 0 "Bearer" "" 3600000000000) in
  let req := mkHTTPRequest "DELETE" "http://mockapi.com/mock-endpoint"
               {[ "Accept" := ["application/json"];
                  "Authorization" := ["Bearer mockAccessToken"] ]} None in
  In (Dispatch req) (events_of (Delete P c "/mock-endpoint") world0) /\
  Method req = "DELETE" /\ ReqBody req = None.
Proof.
  intros P c req.
  assert (Hin : In (Dispatch req) (events_of (Delete P c "/mock-endpoint") world0)).
  { left. vm_compute. reflexivity. }
  split; [exact Hin|].
  destruct (proj1 (proj2 (wrappers_dispatch P c "/mock-endpoint" ∅ None world0 req)) Hin)
    as (Hm & Hb & _).
  split; assumption.
Defined.

Lemma Request_payload_witness :
  let P := mock_platform "http://mockapi.com" 200 in
  let c := heldClient (mkToken "mockAccessToken" 0 "Bearer" "" 3600000000000) in
  let b := mkBodyValue (Some (inl "{id: 1}")) (inr (LibError "json: unsupported type")) in
  exists req,
    In (Dispatch req) (events_of (Request P c "" "/mock-endpoint" (Some b) ∅) world0) /\
    Method req = "GET" /\ ReqBody req = Some "{id: 1}".
Proof.
  intros P c b. eexists.
  assert (Hin : In (Dispatch (mkHTTPRequest "GET" "http://mockapi.com/mock-endpoint"
                   {[ "Accept" := ["application/json"];
                      "Authorization" := ["Bearer mockAccessToken"];
                      "Content-Type" := ["application/json"] ]} (Some "{id: 1}")))
                  (events_of (Request P c "" "/mock-endpoint" (Some b) ∅) world0)).
  { left. vm_compute. reflexivity. }
  split; [exact Hin|].
  destruct (proj1 (Request_payload P c "" "/mock-endpoint" (Some b) ∅ world0) _ Hin)
    as (Hm & buf & Hb & _).
  split; [exact Hm | reflexivity].
Defined.

(** ** The URL of a target request *)

(** X12: the query of a target request.  The URL a target request is sent to
    is the rendering of the parsed base URL with the joined path.  Without
    query parameters the query of the base URL itself is kept; with at least
    one parameter key the encoded parameters replace it, also when they
    encode to nothing. *)
Theorem Request_query (P : Platform) (c : RapidClient) (method urlPath : string)
    (body : option BodyValue) (params : Values) (w : World) (req : HTTPRequest) :
  In (Dispatch req) (events_of (Request P c method urlPath body params) w) ->
  exists u, url_Parse P (BaseURL c) = inl u /\
    let target := resolve P u urlPath params in
    URL req = URL_String target /\
    URL req = URL_authority target +:+ URL_path target +:+ URL_query target +:+
              URL_fragment target /\
    Path target = filepath_Join [Path u; urlPath] /\
    (params = ∅ -> RawQuery target = RawQuery u) /\
    (params <> ∅ -> RawQuery target = Values_Encode P params).
Proof.
  intros Hin.
  destruct (Request_dispatch_needs_payload P c method urlPath body params w req Hin)
    as (_ & _ & u & Hu & Hurl).
  exists u. split; [exact Hu|]. cbv zeta.
  split; [exact Hurl|]. split; [now rewrite Hurl, URL_String_parts|].
  unfold resolve. split; [|split].
  - now destruct (0 <? size params)%nat.
  - intros ->. reflexivity.
  - intros Hne.
    assert (Hs : (0 <? size params)%nat = true).
    { apply Nat.ltb_lt. destruct (size params) eqn:E; [|lia].
      exfalso. apply Hne. now apply map_size_empty_iff. }
    now rewrite Hs.
Qed.

Lemma Request_query_witness :
  let P := mock_platform "http://mockapi.com" 200 in
  let c := heldClient (mkToken "mockAccessToken" 0 "Bearer" "" 3600000000000) in
  exists req,
    In (Dispatch req) (events_of (Request P c "GET" "/mock-endpoint" None ∅) world0) /\
    URL req = "http://mockapi.com/mock-endpoint".
Proof.
  intros P c. eexists.
  assert (Hin : In (Dispatch (mkHTTPRequest "GET" "http://mockapi.com/mock-endpoint"
                   {[ "Accept" := ["application/json"];
                      "Authorization" := ["Bearer mockAccessToken"] ]} None))
                  (events_of (Request P c "GET" "/mock-endpoint" None ∅) world0)).
  { left. vm_compute. reflexivity. }
  split; [exact Hin|].
  destruct (Request_query P c "GET" "/mock-endpoint" None ∅ world0 _ Hin) as (u & _ & _).
  reflexivity.
Defined.

Lemma ends_with_sep_bytes (s : string) : ends_with_sep s = ends_sep (bytes s).
Proof.
  unfold ends_with_sep. rewrite <- (rev_involutive (bytes s)) at 2.
  destruct (rev (bytes s)) as [|c r]; [reflexivity|].
  cbn [rev]. now rewrite ends_sep_app by discriminate.
Qed.

(** The shape of a cleaned path: never empty, rooted when the input is, and
    without a trailing separator unless it is the root. *)
Lemma Clean_bytes_shape (l : list ascii) :
  Clean_bytes l <> [] /\
  (starts_sep l = true -> starts_sep (Clean_bytes l) = true) /\
  (ends_sep (Clean_bytes l) = true -> Clean_bytes l = ["/"%char]).
Proof.
  destruct l as [|c rest]; [repeat split; discriminate|].
  unfold Clean_bytes. cbn [starts_sep].
  destruct (IsPathSeparator c) eqn:Hc.
  - destruct (Clean_loop_buffer_ok (length rest) rest (le_n _) true false ["/"%char] 1)
      as (dd & _ & He & _ & _ & Hs).
    { split; [reflexivity|]. split; [intros _; split; reflexivity|].
      split; [apply le_n | split; reflexivity]. }
    destruct (Clean_loop true rest false ["/"%char] 1) as [|o out]; [discriminate|].
    split; [discriminate|]. split; [intros _; exact Hs|].
    intros H. now destruct (He H).
  - destruct (Clean_loop_buffer_ok (length (c :: rest)) (c :: rest) (le_n _) false false [] 0)
      as (dd & _ & He & _).
    { split; [reflexivity|]. split; [discriminate|]. split; [apply le_n | now left]. }
    destruct (Clean_loop false (c :: rest) false [] 0) as [|o out].
    + repeat split; discriminate.
    + split; [discriminate|]. split; [discriminate|].
      intros H. destruct (He H). discriminate.
Qed.

(** X13: the path of a target URL is in normal form.  It is empty only when
    the base path and the request path are both empty; it has no doubled
    separator; it ends in a separator only when it is the root itself, so a
    trailing slash of the request path is never sent; and with a base path
    that begins with a separator it begins with one, whatever [..] elements
    the request path holds. *)
Theorem resolved_path_normal_form (P : Platform) (u : URL_t) (urlPath : string)
    (params : Values) :
  let p := Path (resolve P u urlPath params) in
  (p = "" <-> Path u = "" /\ urlPath = "") /\
  has_doubled_sep (bytes p) = false /\
  (ends_with_sep p = true -> p = "/") /\
  (starts_with_sep (Path u) = true -> starts_with_sep p = true).
Proof.
  cbv zeta.
  assert (Hp : Path (resolve P u urlPath params) = filepath_Join [Path u; urlPath]).
  { unfold resolve. now destruct (0 <? size params)%nat. }
  rewrite Hp.
  assert (Hclean : forall s, filepath_Clean s <> "" /\
            (starts_with_sep s = true -> starts_with_sep (filepath_Clean s) = true) /\
            (ends_with_sep (filepath_Clean s) = true -> filepath_Clean s = "/")).
  { intros s. unfold filepath_Clean.
    destruct (Clean_bytes_shape (bytes s)) as (Hne & Hs & He).
    rewrite !starts_with_sep_bytes, ends_with_sep_bytes, bytes_str.
    split; [|split].
    - intros H. apply Hne. now rewrite <- (bytes_str (Clean_bytes (bytes s))), H.
    - exact Hs.
    - intros H. now rewrite (He H). }
  split; [|split; [apply filepath_Join_no_doubled | split]].
  - cbn [filepath_Join]. destruct (String.eqb (Path u) "") eqn:E1.
    + apply String.eqb_eq in E1. destruct (String.eqb urlPath "") eqn:E2.
      * apply String.eqb_eq in E2. tauto.
      * apply String.eqb_neq in E2. split; [|tauto].
        intros H. now apply (proj1 (Hclean _)) in H.
    + apply String.eqb_neq in E1. split; [|tauto].
      intros H. now apply (proj1 (Hclean _)) in H.
  - cbn [filepath_Join]. destruct (String.eqb (Path u) "").
    + destruct (String.eqb urlPath ""); [discriminate|]. apply Hclean.
    + apply Hclean.
  - intros Hs. cbn [filepath_Join].
    destruct (Path u) as [|c p0] eqn:E; [discriminate|].
    change (String.eqb (String c p0) "") with false. cbv iota.
    apply Hclean. exact Hs.
Qed.

Lemma resolved_path_normal_form_witness :
  let P := mock_platform "" 200 in
  Path (resolve P (plainURL "http" "api.example.com" "/api/v1") "../../../admin/" ∅)
  = "/admin" /\
  starts_with_sep
    (Path (resolve P (plainURL "http" "api.example.com" "/api/v1") "../../../admin/" ∅))
  = true.
Proof.
  intros P. split; [reflexivity|].
  apply (proj2 (proj2 (proj2 (resolved_path_normal_form P
           (plainURL "http" "api.example.com" "/api/v1") "../../../admin/" ∅)))).
  reflexivity.
Defined.

(** *** Reserved bytes in the path *)

Lemma escape_byte_keeps_path (x : ascii) :
  forallb (fun c => negb (ends_path c)) (escape_byte encodePath x) = true.
Proof.
  unfold escape_byte. destruct (shouldEscape x encodePath) eqn:Hx.
  - assert (Hh : forall n, ends_path (upperhex n) = false).
    { intros n. unfold upperhex.
      do 16 (destruct n as [|n]; [reflexivity|]). cbn. now destruct n. }
    cbn [forallb]. now rewrite !Hh.
  - cbn [forallb]. rewrite andb_true_r. apply negb_true_iff.
    destruct (ends_path x) eqn:He; [|reflexivity].
    unfold ends_path, in_cutset in He. cbn in He.
    rewrite orb_false_r in He.
    apply orb_prop in He. destruct He as [He | He].
    + apply Ascii.eqb_eq in He. subst x. discriminate.
    + apply orb_prop in He. destruct He as [He | He];
        apply Ascii.eqb_eq in He; subst x; discriminate.
Qed.

Lemma ends_path_cases (x : ascii) :
  ends_path x = true -> x = "?"%char \/ x = "#"%char \/ x = " "%char.
Proof.
  intros He. unfold ends_path, in_cutset in He. cbn in He.
  rewrite orb_false_r in He.
  apply orb_prop in He. destruct He as [He | He].
  - apply Ascii.eqb_eq in He. auto.
  - apply orb_prop in He. destruct He as [He | He]; apply Ascii.eqb_eq in He; auto.
Qed.

(** A valid encoding holds none of the bytes that end the path. *)
Lemma validEncoded_keeps_path (s : string) :
  validEncoded s encodePath = true ->
  forallb (fun c => negb (ends_path c)) (bytes s) = true.
Proof.
  unfold validEncoded. induction (bytes s) as [|x l IH]; [reflexivity|].
  cbn [forallb]. intros H. apply andb_prop in H. destruct H as [Hx Hl].
  rewrite (IH Hl), andb_true_r. apply negb_true_iff.
  destruct (ends_path x) eqn:He; [|reflexivity].
  destruct (ends_path_cases x He) as [-> | [-> | ->]]; discriminate Hx.
Qed.

Lemma forallb_str_app (f : ascii -> bool) (s t : string) :
  forallb f (bytes (s +:+ t)) = forallb f (bytes s) && forallb f (bytes t).
Proof. now rewrite bytes_app, forallb_app. Qed.

(** X14: a request path cannot reach beyond the path of the URL.  Whatever
    bytes the base path and the request path hold, the path written into the
    target URL contains no '?', no '#' and no space: such bytes are sent
    percent-encoded, so a query string inside the request path does not
    become the query of the request. *)
Theorem resolved_path_is_escaped (P : Platform) (u : URL_t) (urlPath : string)
    (params : Values) :
  let target := resolve P u urlPath params in
  URL_String target = URL_authority target +:+ URL_path target +:+ URL_query target +:+
                      URL_fragment target /\
  forall c, In c (bytes (URL_path target)) ->
    c <> "?"%char /\ c <> "#"%char /\ c <> " "%char.
Proof.
  cbv zeta. split; [apply URL_String_parts|].
  set (target := resolve P u urlPath params).
  assert (H : forallb (fun c => negb (ends_path c)) (bytes (URL_path target)) = true).
  { unfold URL_path. cbv zeta.
    destruct (nonempty (URL_Opaque target)); [reflexivity|].
    rewrite !forallb_str_app.
    assert (Hpath : forallb (fun c => negb (ends_path c)) (bytes (EscapedPath target)) = true).
    { destruct (EscapedPath_cases target) as [(-> & Hv & _) | ->].
      - now apply validEncoded_keeps_path.
      - destruct (String.eqb (Path target) "*"); [reflexivity|].
        unfold escape. rewrite bytes_str.
        induction (bytes (Path target)) as [|x l IH]; [reflexivity|].
        cbn [flat_map]. now rewrite forallb_app, escape_byte_keeps_path, IH. }
    rewrite Hpath.
    destruct (nonempty (EscapedPath target) && negb (starts_with_sep (EscapedPath target))
              && nonempty (Host target));
      destruct (String.eqb _ "" && in_cutset _ ":"%char); reflexivity. }
  intros c Hin. rewrite forallb_forall in H. specialize (H c Hin).
  apply negb_true_iff in H.
  repeat split; intros ->; discriminate.
Qed.

Example resolved_path_question_mark :
  URL_String (resolve (mock_platform "" 200) (plainURL "http" "api.example.com" "")
                "/widgets?id=1" ∅)
  = "http://api.example.com/widgets%3Fid=1".
Proof. reflexivity. Qed.

(** ** The token step and the rest of Request *)

(** X15: the steps of [Request] after the token step never touch the client.
    The client it returns is the one the token step leaves, so a token
    generated by a [Request] is kept even when that request then fails, for
    instance on a base URL that does not parse or on a body that cannot be
    serialized, and the next request can use it. *)
Theorem Request_keeps_generated_token (P : Platform) (c : RapidClient)
    (method urlPath : string) (body : option BodyValue) (params : Values) (w : World)
    (tk : Token) :
  held_token_valid P c w = false ->
  exchange_answers P c false (after_check c w) tk ->
  let r := Request P c method urlPath body params w in
  let tok := stamped P tk
               (after_Do (TokenExchange false (tokenRequest P c false)) (after_check c w)) in
  fst (fst r) = set_Token c tok /\
  Client_Token (fst (fst r)) = Some tok /\
  (forall e, url_Parse P (BaseURL c) = inr e ->
     snd (fst r) = Return (None, Some (Errorf_s_w "error parsing base URL" e))) /\
  (forall u e, url_Parse P (BaseURL c) = inl u -> serialize body = inr e ->
     snd (fst r) = Return (None, Some (Errorf_s_w "error marshaling request body" e))).
Proof.
  intros Hv Hx r tok. subst r tok.
  rewrite Request_run, (ensureValidToken_invalid _ _ _ Hv),
    (exchange_answers_run _ _ _ _ _ Hx).
  cbv iota beta. rewrite dispatched_client.
  split; [reflexivity|]. split; [reflexivity|]. split.
  - intros e He. unfold dispatched. cbn [BaseURL set_Token]. now rewrite He.
  - intros u e Hu He. unfold dispatched. cbn [BaseURL set_Token]. now rewrite Hu, He.
Qed.

Lemma Request_keeps_generated_token_witness :
  let P := mock_platform "http://mockapi.com" 200 in
  let b := mkBodyValue None (inr (LibError "json: unsupported type")) in
  let r := Request P mockClient "POST" "/mock-endpoint" (Some b) ∅ world0 in
  Client_Token (fst (fst r)) =
    Some (mkToken "mockAccessToken" 3600 "Bearer" "mockRefreshToken" 3601000000000) /\
  snd (fst r) =
    Return (None, Some (Errorf_s_w "error marshaling request body"
                          (LibError "json: unsupported type"))).
Proof.
  intros P b r.
  assert (Hx : exchange_answers P mockClient false (after_check mockClient world0) mockToken).
  { split; [discriminate|]. split; [reflexivity|]. eexists. repeat split. }
  destruct (Request_keeps_generated_token P mockClient "POST" "/mock-endpoint" (Some b) ∅
              world0 mockToken eq_refl Hx) as (_ & Ht & _ & He).
  split; [exact Ht|]. eapply He; reflexivity.
Defined.

(** ** A client without an HTTP client *)




